(** * Service-Tools: lyrics section parsing, slide font sizing, batch driver

    A shallow embedding of the pure core of the lyrics-to-slides scripts
    ([GUI_BASED.py] and [scrappingPpptx.py]): the bracket-marker section
    parser in its two variants, the font-size staircase in its two variants,
    the batch file-name sanitiser and the per-song driver with its
    try/except. *)

From Equations Require Import Equations.
From Stdlib Require Import String Ascii.
From Stdlib Require Import List Bool Arith NArith ZArith Lia.
Import ListNotations.

(** ** Python values used by the scripts *)

Module Py.

(** A Python [str] is a sequence of Unicode code points. *)
Definition char := N.
Definition str := list char.

(** String literals of the development, read as their (ASCII) code points. *)
Definition lit (s : String.string) : str :=
  map N_of_ascii (list_ascii_of_string s).

Definition nl : str := [10%N].
Definition lbracket : char := 91%N.
Definition rbracket : char := 93%N.
Definition space : char := 32%N.
Definition hyphen : char := 45%N.
Definition underscore : char := 95%N.

(** Truth value of a sequence: non-empty. *)
Definition truthy {A} (s : list A) : bool :=
  match s with [] => false | _ :: _ => true end.

(** [c.isspace()]: the code points CPython classifies as whitespace. *)
Definition isspace (c : char) : bool :=
  ((9 <=? c) && (c <=? 13) || (28 <=? c) && (c <=? 32)
   || (c =? 133) || (c =? 160) || (c =? 5760)
   || (8192 <=? c) && (c <=? 8202)
   || (c =? 8232) || (c =? 8233) || (c =? 8239) || (c =? 8287)
   || (c =? 12288))%N.

Fixpoint lstrip (s : str) : str :=
  match s with
  | [] => []
  | c :: r => if isspace c then lstrip r else s
  end.

Definition rstrip (s : str) : str := rev (lstrip (rev s)).

(** [s.strip()] *)
Definition strip (s : str) : str := rstrip (lstrip s).

(** [s.replace(a, b)] for one-character [a] and [b]. *)
Definition replace_char (a b : char) (s : str) : str :=
  map (fun c => if (c =? a)%N then b else c) s.

(** [range(start, stop, step)] for a positive step. *)
Fixpoint range_count (start step count : nat) : list nat :=
  match count with
  | O => []
  | S k => start :: range_count (start + step) step k
  end.

Definition range (start stop step : nat) : list nat :=
  range_count start step ((stop - start + step - 1) / step).

(** [enumerate(l)], and the same counting from [i]. *)
Definition enumerate_from {A} (i : nat) (l : list A) : list (nat * A) :=
  combine (seq i (length l)) l.

Definition enumerate {A} (l : list A) : list (nat * A) := enumerate_from 0 l.

(** *** The regular expression [\[([^\]]+)\]]

    [span_label] is the greedy class repetition [[^\]]*]: the longest run of
    characters other than the closing bracket. *)
Fixpoint span_label (s : str) : str * str :=
  match s with
  | [] => ([], [])
  | c :: r =>
      if (c =? rbracket)%N then ([], s)
      else let (g, t) := span_label r in (c :: g, t)
  end.

(** A match of the pattern anchored at the head of [s]: the captured group
    and the text after the match.  The run is never shortened by
    backtracking, since the character after a shorter run belongs to the
    class and is no closing bracket. *)
Definition match_marker (s : str) : option (str * str) :=
  match s with
  | [] => None
  | c :: r =>
      if (c =? lbracket)%N then
        match span_label r with
        | (g0 :: g, c' :: t) =>
            if (c' =? rbracket)%N then Some (g0 :: g, t) else None
        | _ => None
        end
      else None
  end.

(** The leftmost match: the text before it, the group, the text after. *)
Fixpoint search_marker (s : str) : option (str * str * str) :=
  match s with
  | [] => None
  | c :: r =>
      match match_marker s with
      | Some (g, t) => Some ([], g, t)
      | None =>
          match search_marker r with
          | Some (pre, g, t) => Some (c :: pre, g, t)
          | None => None
          end
      end
  end.

Lemma span_label_length (s : str) :
  length (fst (span_label s)) + length (snd (span_label s)) = length s.
Proof.
  induction s as [|c r IH]; simpl; [reflexivity|].
  destruct (c =? rbracket)%N; simpl; [reflexivity|].
  destruct (span_label r) as [g t]; simpl in *; lia.
Qed.

Lemma match_marker_length (s g t : str) :
  match_marker s = Some (g, t) -> length t < length s.
Proof.
  destruct s as [|c r]; simpl; [discriminate|].
  destruct (c =? lbracket)%N; [|discriminate].
  pose proof (span_label_length r) as L.
  destruct (span_label r) as [[|g0 g'] [|c' t']]; try discriminate.
  destruct (c' =? rbracket)%N; [|discriminate].
  intros [= <- <-]; simpl in L; lia.
Qed.

Lemma search_marker_length (s pre g t : str) :
  search_marker s = Some (pre, g, t) -> length t < length s.
Proof.
  revert pre; induction s as [|c r IH]; intros pre; [discriminate|].
  cbn [search_marker].
  destruct (match_marker (c :: r)) as [[g1 t1]|] eqn:M.
  - intros [= <- <- <-]; eapply match_marker_length; eassumption.
  - destruct (search_marker r) as [[[pre' g'] t']|]; [|discriminate].
    intros [= <- <- <-]; specialize (IH _ eq_refl); simpl; lia.
Qed.

(** The value of an expression together with the equation that names it,
    for the recursion of [re_split] on the text after a match. *)
Definition inspect {A} (a : A) : {b : A | a = b} := exist _ a eq_refl.

(** [re.split(r'\[([^\]]+)\]', s)]: the texts between the successive
    leftmost matches, with the captured group of each match in between. *)
Equations? re_split (s : str) : list str by wf (length s) lt :=
  re_split s with inspect (search_marker s) := {
    | exist _ (Some (pre, g, t)) E => pre :: g :: re_split t
    | exist _ None _ => [s] }.
Proof. eapply search_marker_length; eassumption. Qed.

(** *** Further string methods *)

(** [a == b] on strings. *)
Fixpoint str_eqb (a b : str) : bool :=
  match a, b with
  | [], [] => true
  | c :: a', d :: b' => (c =? d)%N && str_eqb a' b'
  | _, _ => false
  end.

(** [sep.join(l)] *)
Fixpoint join (sep : str) (l : list str) : str :=
  match l with
  | [] => []
  | [x] => x
  | x :: rest => x ++ sep ++ join sep rest
  end.

(** [s.split(sep)] for a one-character separator: the pieces between the
    separators, empty ones included. *)
Fixpoint split_on (sep : char) (s : str) : list str :=
  match s with
  | [] => [[]]
  | c :: r =>
      if (c =? sep)%N then [] :: split_on sep r
      else
        match split_on sep r with
        | p :: ps => (c :: p) :: ps
        | [] => [[c]]
        end
  end.

(** [s.replace(a, new)] for a one-character [a]. *)
Definition replace_with (a : char) (new : str) (s : str) : str :=
  flat_map (fun c => if (c =? a)%N then new else [c]) s.

(** [s.startswith(prefix)] and [s.endswith(suffix)] *)
Fixpoint startswith (s prefix : str) : bool :=
  match prefix with
  | [] => true
  | p :: ps =>
      match s with
      | [] => false
      | c :: r => (c =? p)%N && startswith r ps
      end
  end.

Definition endswith (s suffix : str) : bool :=
  startswith (rev s) (rev suffix).

(** [text.encode('ascii', 'ignore').decode('ascii')]: the characters that
    have no ASCII encoding are left out. *)
Definition ascii_only (text : str) : str :=
  filter (fun c => (c <? 128)%N) text.

End Py.

Import Py.

Example re_split_demo :
  re_split (lit "x[][a]y"%string) = [lit "x[]"; lit "a"; lit "y"].
Proof. reflexivity. Qed.

(** ** Data model *)

(** A parsed section: [(section_name, section_text)]. *)
Definition lyrics_section := (str * str)%type.

(** The dictionary returned by a successful search; [lyrics] is [None] when
    the page has no lyrics container. *)
Record LyricsDocument := {
  url : str;
  title : str;
  lyrics : option str
}.

(** Exceptions derived from [Exception], carried with their text. *)
Inductive exn := Exception (msg : str).

Inductive outcome (A : Type) :=
| Returned (a : A)
| Raised (e : exn).
Arguments Returned {A} a.
Arguments Raised {A} e.

(** The lines handed to [log_callback]. *)
Inductive message :=
| MsgRule
| MsgProcessing (song_query : str)
| MsgNoLyrics (song_query : str)
| MsgFound (song_title : str)
| MsgParsed (n : nat)
| MsgSaved (output_file : str)
| MsgError (song_query : str) (e : exn).

(** What a run does to the outside world, in order. *)
Inductive event :=
| Logged (m : message)
| Searched (song_query : str)
| Built (song_title : str) (sections : list lyrics_section) (output_file : str).

(** Computations that extend the trace of events and return or raise. *)
Definition io (A : Type) := list event -> outcome A * list event.

Definition ret {A} (a : A) : io A := fun tr => (Returned a, tr).

Definition bind {A B} (m : io A) (k : A -> io B) : io B :=
  fun tr =>
    match m tr with
    | (Returned a, tr') => k a tr'
    | (Raised e, tr') => (Raised e, tr')
    end.

(** [try: m  except Exception as e: h e] *)
Definition try_except {A} (m : io A) (h : exn -> io A) : io A :=
  fun tr =>
    match m tr with
    | (Returned a, tr') => (Returned a, tr')
    | (Raised e, tr') => h e tr'
    end.

(** A call to a collaborator: recorded in the trace, with its outcome. *)
Definition call {A} (e : event) (r : outcome A) : io A :=
  fun tr => (r, tr ++ [e]).

Notation "x <- m ;; k" := (bind m (fun x => k))
  (at level 61, m at next level, right associativity).
Notation "m ;;; k" := (bind m (fun _ => k))
  (at level 61, right associativity).

(** One hit of the search response: the fields of [hit['result']] that the
    scripts read. *)
Record Hit := {
  result_url : str;
  result_title : str;
  result_full_title : str;
  primary_artist_name : str
}.

(** One element of [data['response']['sections']]. *)
Record ResultSection := {
  section_type : str;
  section_hits : list Hit
}.

(** What the scripts read of a fetched lyrics page: the text of the
    [<title>] tag if there is one, and the texts, line breaks turned into
    newlines, of the [div]s found by the attribute selector and by the
    class selector. *)
Record LyricsPage := {
  title_tag : option str;
  by_attribute : list str;
  by_class : list str
}.

(** The presentation handed to [prs.save].  Lengths are in tenths of an
    inch, as the arguments of [Inches] are written; font sizes in points. *)
Inductive RGBColor := RGB (r g b : N).

Inductive PP_ALIGN := CENTER.

(** The paragraphs of a text frame that receive the format: the first one
    ([tf.paragraphs[0]]) or every one ([for paragraph in tf.paragraphs]). *)
Inductive paragraphs := FirstParagraph | AllParagraphs.

Record TextBox := {
  box_left : N;
  box_top : N;
  box_width : N;
  box_height : N;
  box_word_wrap : bool;
  box_text : str;
  box_paragraphs : paragraphs;
  box_alignment : PP_ALIGN;
  box_font_size : Z;
  box_bold : bool;
  box_color : RGBColor
}.

Record Slide := {
  slide_shapes : list TextBox;
  slide_background : RGBColor
}.

Record Presentation := {
  slide_width : N;
  slide_height : N;
  slides : list Slide
}.

(** The lines that [process_songs] itself logs. *)
Inductive batch_message :=
| LogCreatedFolder (output_folder : str)
| LogProcessing (n : nat)
| LogRule
| LogCompleted
| LogSuccess (success_count : nat)
| LogFailed (fail_count : nat)
| LogOutputFolder (path : str)
| LogError (e : exn).

(** What a batch does, in order: the events of its songs, and around them
    the folder it makes, its own log lines, the closing message box and the
    button set back to normal. *)
Inductive batch_event :=
| SongEvent (e : event)
| MakeDirs (output_folder : str)
| BatchLogged (m : batch_message)
| ShowInfo (success_count fail_count : nat) (output_folder : str)
| ShowError (e : exn)
| ButtonNormal.

(** ** scrappingPpptx.py *)

Module scrappingPpptx.

(** The body of the loop over [enumerate(parts)]; the state is
    [(sections, current_section)]. *)
Definition parse_step (st : list lyrics_section * option str)
    (ip : nat * str) : list lyrics_section * option str :=
  let '(sections, current_section) := st in
  let '(i, part0) := ip in
  let part := strip part0 in
  if negb (truthy part) then st
  else if i mod 2 =? 1 then (sections, Some part)
  else
    match current_section with
    | Some name =>
        if truthy name then (sections ++ [(name, part)], None)
        else if truthy part then (sections ++ [([], part)], current_section)
        else st
    | None =>
        if truthy part then (sections ++ [([], part)], current_section)
        else st
    end.

(** The loop started in state [st] at index [i]. *)
Definition parse_loop (st : list lyrics_section * option str) (i : nat)
    (parts : list str) : list lyrics_section * option str :=
  fold_left parse_step (enumerate_from i parts) st.

Definition parse_lyrics_sections (lyrics_text : str) : list lyrics_section :=
  let parts := re_split lyrics_text in
  fst (parse_loop ([], None) 0 parts).

Definition calculate_font_size (text_length : Z) : Z :=
  if (text_length <? 100)%Z then 44%Z
  else if (text_length <? 200)%Z then 36%Z
  else if (text_length <? 300)%Z then 32%Z
  else if (text_length <? 500)%Z then 28%Z
  else if (text_length <? 700)%Z then 24%Z
  else 20%Z.


Section Main.

(** The search and the builder as [main] sees them: calls that return or
    raise. *)
Variable search_genius_lyrics : str -> outcome (option LyricsDocument).
Variable create_lyrics_presentation :
  str -> list lyrics_section -> str -> outcome unit.

(** [not result or not result['lyrics']] *)
Definition no_lyrics (result : option LyricsDocument) : bool :=
  match result with
  | None => true
  | Some d =>
      match lyrics d with
      | None => true
      | Some l => negb (truthy l)
      end
  end.

(** [main(song_query, output_file)]; the lines it prints are left out. *)
Definition main (song_query output_file : str) : io unit :=
  result <- call (Searched song_query) (search_genius_lyrics song_query) ;;
  if no_lyrics result then ret tt
  else
    match result with
    | Some d =>
        match lyrics d with
        | Some l =>
            let sections := parse_lyrics_sections l in
            call (Built (title d) sections output_file)
              (create_lyrics_presentation (title d) sections output_file)
        | None => fun tr => (Raised (Exception (lit "TypeError")), tr)
        end
    | None => fun tr => (Raised (Exception (lit "TypeError")), tr)
    end.

End Main.

(** The title slide. *)
Definition title_slide (song_title : str) : Slide :=
  {| slide_shapes :=
       [{| box_left := 5; box_top := 25; box_width := 90; box_height := 20;
           box_word_wrap := false; box_text := song_title;
           box_paragraphs := FirstParagraph; box_alignment := CENTER;
           box_font_size := 54; box_bold := true;
           box_color := RGB 0 0 0 |}];
     slide_background := RGB 240 240 255 |}.

(** The box of the section name, present when the name is not empty. *)
Definition name_box (section_name : str) : list TextBox :=
  if truthy section_name then
    [{| box_left := 5; box_top := 3; box_width := 90; box_height := 8;
        box_word_wrap := false;
        box_text := lbracket :: section_name ++ [rbracket];
        box_paragraphs := FirstParagraph; box_alignment := CENTER;
        box_font_size := 24; box_bold := true;
        box_color := RGB 100 100 150 |}]
  else [].

(** The slide of one section. *)
Definition section_slide (sec : lyrics_section) : Slide :=
  let '(section_name, section_text) := sec in
  let content_length := Z.of_nat (length section_text) in
  let font_size := calculate_font_size content_length in
  {| slide_shapes :=
       name_box section_name
       ++ [{| box_left := 5;
              box_top := if truthy section_name then 15 else 10;
              box_width := 90;
              box_height := if truthy section_name then 55 else 60;
              box_word_wrap := true; box_text := section_text;
              box_paragraphs := AllParagraphs; box_alignment := CENTER;
              box_font_size := font_size; box_bold := false;
              box_color := RGB 0 0 0 |}];
     slide_background := RGB 255 255 255 |}.

(** The presentation that [create_lyrics_presentation] builds and saves;
    the lines it prints are left out. *)
Definition create_lyrics_presentation (song_title : str)
    (sections : list lyrics_section) : Presentation :=
  {| slide_width := 100; slide_height := 75;
     slides := title_slide song_title :: map section_slide sections |}.

(** The address of the search. *)
Definition search_url (song_query : str) : str :=
  lit "https://genius.com/api/search/multi?per_page=5&q="
  ++ replace_with space (lit "%20") song_query.

(** The loop over the sections of the response; [found] holds
    [(lyrics_url, song_title)], assigned together, and is [None] before the
    first assignment.  Of a section of type song only the first hit is
    read. *)
Fixpoint first_song (sections : list ResultSection)
    (found : option (str * str)) : option (str * str) :=
  match sections with
  | [] => found
  | section :: rest =>
      if str_eqb (section_type section) (lit "song") then
        let found' :=
          match section_hits section with
          | hit :: _ => Some (result_url hit, result_full_title hit)
          | [] => found
          end in
        match found' with
        | Some (lyrics_url, _) =>
            if truthy lyrics_url then found' else first_song rest found'
        | None => first_song rest found'
        end
      else first_song rest found
  end.

Section Fetch.

(** [isinstance(e, requests.RequestException)] *)
Variable is_request_exception : exn -> bool.

(** The search request up to [data['response']['sections']], and the
    request of the lyrics page up to the [div]s of the parsed page. *)
Variable requests_get_sections : str -> outcome (list ResultSection).
Variable requests_get_page : str -> outcome LyricsPage.

(** [search_genius_lyrics(song_query)]; the lines it prints are left
    out. *)
Definition search_genius_lyrics (song_query : str)
    : outcome (option LyricsDocument) :=
  match requests_get_sections (search_url song_query) with
  | Raised e => if is_request_exception e then Returned None else Raised e
  | Returned sections =>
      match first_song sections None with
      | None => Returned None
      | Some (lyrics_url, song_title) =>
          if negb (truthy lyrics_url) then Returned None
          else
            match requests_get_page lyrics_url with
            | Raised e =>
                if is_request_exception e then Returned None else Raised e
            | Returned page =>
                let lyrics_containers :=
                  if truthy (by_attribute page) then by_attribute page
                  else by_class page in
                if negb (truthy lyrics_containers) then
                  Returned (Some {| url := lyrics_url; title := song_title;
                                    lyrics := None |})
                else
                  Returned
                    (Some {| url := lyrics_url; title := song_title;
                             lyrics :=
                               Some (strip (join (nl ++ nl)
                                              lyrics_containers)) |})
            end
      end
  end.

End Fetch.

End scrappingPpptx.

(** ** GUI_BASED.py *)

Module GUI_BASED.

(** The body of the loop over [range(1, len(parts), 2)]. *)
Definition parse_step (parts : list str) (sections : list lyrics_section)
    (i : nat) : list lyrics_section :=
  if i <? length parts then
    let section_name := strip (nth i parts []) in
    let section_text :=
      if i + 1 <? length parts then strip (nth (i + 1) parts []) else [] in
    if truthy section_text then sections ++ [(section_name, section_text)]
    else sections
  else sections.

Definition parse_lyrics_sections (lyrics_text : str) : list lyrics_section :=
  let parts := re_split lyrics_text in
  fold_left (parse_step parts) (range 1 (length parts) 2) [].

Definition calculate_font_size (text_length : Z) : Z :=
  if (text_length <? 80)%Z then 48%Z
  else if (text_length <? 120)%Z then 44%Z
  else if (text_length <? 180)%Z then 40%Z
  else if (text_length <? 250)%Z then 36%Z
  else if (text_length <? 350)%Z then 32%Z
  else if (text_length <? 450)%Z then 28%Z
  else if (text_length <? 600)%Z then 26%Z
  else if (text_length <? 800)%Z then 24%Z
  else if (text_length <? 1000)%Z then 22%Z
  else 20%Z.

Section Driver.

(** [c.isalnum()] outside ASCII follows the interpreter's Unicode tables. *)
Variable unicode_isalnum : char -> bool.

(** [os.path.join] of the platform. *)
Variable os_path_join : str -> str -> str.

(** The outcome of the network search for a query, and of writing the
    presentation file: both are collaborators of the driver. *)
Variable search_genius_lyrics : str -> outcome (option LyricsDocument).
Variable create_lyrics_presentation :
  str -> list lyrics_section -> str -> outcome unit.

Definition isalnum (c : char) : bool :=
  if (c <? 128)%N then
    ((48 <=? c) && (c <=? 57) || (65 <=? c) && (c <=? 90)
     || (97 <=? c) && (c <=? 122))%N
  else unicode_isalnum c.

(** The condition of the generator expression building the file name. *)
Definition keeps (c : char) : bool :=
  isalnum c || (c =? space)%N || (c =? hyphen)%N || (c =? underscore)%N.

Definition safe_filename (song_query : str) : str :=
  replace_char space underscore (strip (filter keeps song_query)).

(** A line handed to the callback: recorded in the trace, with the outcome
    of the callback. *)
Definition log (log_callback : message -> outcome unit) (m : message)
    : io unit :=
  call (Logged m) (log_callback m).

(** [LyricsGUI.log]: inserts the line into the log area. *)
Definition gui_log (m : message) : outcome unit := Returned tt.

(** [not result or not result['lyrics']] *)
Definition no_lyrics (result : option LyricsDocument) : bool :=
  match result with
  | None => true
  | Some d =>
      match lyrics d with
      | None => true
      | Some l => negb (truthy l)
      end
  end.

(** Subscripting [None], or splitting a [None] text, raises [TypeError]. *)
Definition type_error {A} : io A :=
  fun tr => (Raised (Exception (lit "TypeError")), tr).

Definition process_single_song (song_query output_folder : str)
    (log_callback : message -> outcome unit) : io bool :=
  try_except
    (log log_callback MsgRule ;;;
     log log_callback (MsgProcessing song_query) ;;;
     result <- call (Searched song_query) (search_genius_lyrics song_query) ;;
     if no_lyrics result then
       log log_callback (MsgNoLyrics song_query) ;;; ret false
     else
       match result with
       | Some d =>
           log log_callback (MsgFound (title d)) ;;;
           match lyrics d with
           | Some l =>
               let sections := parse_lyrics_sections l in
               log log_callback (MsgParsed (length sections)) ;;;
               let output_file :=
                 os_path_join output_folder
                   (safe_filename song_query ++ lit ".pptx") in
               call (Built (title d) sections output_file)
                 (create_lyrics_presentation (title d) sections output_file) ;;;
               log log_callback (MsgSaved output_file) ;;;
               ret true
           | None => type_error
           end
       | None => type_error
       end)
    (fun e => log log_callback (MsgError song_query e) ;;; ret false).

(** The loop of [process_songs] over the queries, with its two counters. *)
Fixpoint process_loop (songs : list str) (output_folder : str)
    (success_count fail_count : nat) : io (nat * nat) :=
  match songs with
  | [] => ret (success_count, fail_count)
  | song :: rest =>
      ok <- process_single_song song output_folder gui_log ;;
      if ok then process_loop rest output_folder (S success_count) fail_count
      else process_loop rest output_folder success_count (S fail_count)
  end.

End Driver.


(** [clean_text(text)] *)
Definition clean_text (text : str) : str := strip (ascii_only text).

(** The title slide. *)
Definition title_slide (song_title : str) : Slide :=
  {| slide_shapes :=
       [{| box_left := 5; box_top := 25; box_width := 90; box_height := 20;
           box_word_wrap := true; box_text := song_title;
           box_paragraphs := FirstParagraph; box_alignment := CENTER;
           box_font_size := 54; box_bold := true;
           box_color := RGB 0 0 0 |}];
     slide_background := RGB 240 240 255 |}.

(** The slide of one section: its text alone, the name is not shown. *)
Definition section_slide (sec : lyrics_section) : Slide :=
  let '(section_name, section_text) := sec in
  let content_length := Z.of_nat (length section_text) in
  let font_size := calculate_font_size content_length in
  {| slide_shapes :=
       [{| box_left := 5; box_top := 10; box_width := 90; box_height := 60;
           box_word_wrap := true; box_text := section_text;
           box_paragraphs := AllParagraphs; box_alignment := CENTER;
           box_font_size := font_size; box_bold := false;
           box_color := RGB 0 0 0 |}];
     slide_background := RGB 255 255 255 |}.

(** The presentation that [create_lyrics_presentation] builds and saves;
    the lines it prints are left out. *)
Definition create_lyrics_presentation (song_title : str)
    (sections : list lyrics_section) : Presentation :=
  {| slide_width := 100; slide_height := 75;
     slides := title_slide song_title :: map section_slide sections |}.

(** The address of the search. *)
Definition search_url (song_query : str) : str :=
  lit "https://genius.com/api/search/multi?per_page=5&q="
  ++ replace_with space (lit "%20") song_query.

(** [f"{title} by {artist}"] with both cleaned. *)
Definition song_title_of (hit : Hit) : str :=
  clean_text (result_title hit) ++ lit " by "
  ++ clean_text (primary_artist_name hit).

(** The loop over the sections of the response; [found] holds
    [(lyrics_url, song_title)], assigned together, and is [None] before the
    first assignment.  Of a section of type song only the first hit is
    read. *)
Fixpoint first_song (sections : list ResultSection)
    (found : option (str * str)) : option (str * str) :=
  match sections with
  | [] => found
  | section :: rest =>
      if str_eqb (section_type section) (lit "song") then
        let found' :=
          match section_hits section with
          | hit :: _ => Some (result_url hit, song_title_of hit)
          | [] => found
          end in
        match found' with
        | Some (lyrics_url, _) =>
            if truthy lyrics_url then found' else first_song rest found'
        | None => first_song rest found'
        end
      else first_song rest found
  end.

Section Fetch.

(** [isinstance(e, requests.RequestException)] *)
Variable is_request_exception : exn -> bool.

(** The search request up to [data['response']['sections']], and the
    request of the lyrics page up to the [div]s of the parsed page. *)
Variable requests_get_sections : str -> outcome (list ResultSection).
Variable requests_get_page : str -> outcome LyricsPage.

(** [search_genius_lyrics(song_query)]; the lines it prints are left
    out. *)
Definition search_genius_lyrics (song_query : str)
    : outcome (option LyricsDocument) :=
  match requests_get_sections (search_url song_query) with
  | Raised e => if is_request_exception e then Returned None else Raised e
  | Returned sections =>
      match first_song sections None with
      | None => Returned None
      | Some (lyrics_url, song_title) =>
          if negb (truthy lyrics_url) then Returned None
          else
            match requests_get_page lyrics_url with
            | Raised e =>
                if is_request_exception e then Returned None else Raised e
            | Returned page =>
                let lyrics_containers :=
                  if truthy (by_attribute page) then by_attribute page
                  else by_class page in
                if negb (truthy lyrics_containers) then
                  Returned (Some {| url := lyrics_url; title := song_title;
                                    lyrics := None |})
                else
                  Returned
                    (Some {| url := lyrics_url; title := song_title;
                             lyrics :=
                               Some (strip (join (nl ++ nl)
                                              lyrics_containers)) |})
            end
      end
  end.

End Fetch.

(** [LyricsGUI.start_processing], from the contents of the text area and
    of the folder entry to the arguments of [process_songs]; [None] when the
    warning is shown instead. *)
Definition start_processing (text_area folder_entry : str)
    : option (list str * str) :=
  let text := strip text_area in
  if negb (truthy text) then None
  else
    let songs :=
      map strip (filter (fun line => truthy (strip line)) (split_on 10%N text))
    in
    let output_folder := strip folder_entry in
    let output_folder :=
      if negb (truthy output_folder) then lit "lyrics_presentations"
      else output_folder in
    Some (songs, output_folder).

Section Songs.

Variable unicode_isalnum : char -> bool.
Variable os_path_join : str -> str -> str.
Variable search_genius_lyrics : str -> outcome (option LyricsDocument).
Variable create_lyrics_presentation :
  str -> list lyrics_section -> str -> outcome unit.

(** [os.path.exists], [os.makedirs] and [os.path.abspath]. *)
Variable os_path_exists : str -> bool.
Variable os_makedirs : str -> outcome unit.
Variable os_path_abspath : str -> str.

(** The body of the [try] of [process_songs]: its outcome and its events. *)
Definition process_songs_try (songs : list str) (output_folder : str)
    : outcome unit * list batch_event :=
  let '(made, tr) :=
    if negb (os_path_exists output_folder) then
      match os_makedirs output_folder with
      | Returned _ =>
          (Returned tt,
           [MakeDirs output_folder;
            BatchLogged (LogCreatedFolder output_folder)])
      | Raised e => (Raised e, [MakeDirs output_folder])
      end
    else (Returned tt, []) in
  match made with
  | Raised e => (Raised e, tr)
  | Returned _ =>
      let tr := tr ++ [BatchLogged (LogProcessing (length songs))] in
      match process_loop unicode_isalnum os_path_join search_genius_lyrics
              create_lyrics_presentation songs output_folder 0 0 [] with
      | (Raised e, events) => (Raised e, tr ++ map SongEvent events)
      | (Returned (success_count, fail_count), events) =>
          (Returned tt,
           tr ++ map SongEvent events
           ++ [BatchLogged LogRule; BatchLogged LogCompleted;
               BatchLogged (LogSuccess success_count);
               BatchLogged (LogFailed fail_count);
               BatchLogged (LogOutputFolder (os_path_abspath output_folder));
               ShowInfo success_count fail_count output_folder])
      end
  end.

(** [LyricsGUI.process_songs]: the [try], its handler and the [finally];
    the log and the message boxes are taken to return. *)
Definition process_songs (songs : list str) (output_folder : str)
    : list batch_event :=
  match process_songs_try songs output_folder with
  | (Returned _, tr) => tr ++ [ButtonNormal]
  | (Raised e, tr) =>
      tr ++ [BatchLogged (LogError e); ShowError e; ButtonNormal]
  end.

End Songs.

End GUI_BASED.

(** ** scrapTheSong.py *)

Module scrapTheSong.

(** The test of the loop over the links of the search page. *)
Definition is_lyrics_link (href : str) : bool :=
  startswith href (lit "https://genius.com/") && endswith href (lit "-lyrics").

(** The loop over the links, left at the first one that passes the test. *)
Fixpoint first_lyrics_link (hrefs : list str) : option str :=
  match hrefs with
  | [] => None
  | href :: rest =>
      if is_lyrics_link href then Some href else first_lyrics_link rest
  end.

Section Fetch.

(** [isinstance(e, requests.RequestException)] *)
Variable is_request_exception : exn -> bool.

(** [urllib.parse.quote] *)
Variable quote : str -> str.

(** The request of the search page up to the [href]s of its links, and the
    request of the lyrics page up to the parsed page. *)
Variable requests_get_links : str -> outcome (list str).
Variable requests_get_page : str -> outcome LyricsPage.

(** [search_genius_lyrics(song_query)]; the lines it prints are left
    out. *)
Definition search_genius_lyrics (song_query : str)
    : outcome (option LyricsDocument) :=
  let search_url := lit "https://genius.com/search?q=" ++ quote song_query in
  match requests_get_links search_url with
  | Raised e => if is_request_exception e then Returned None else Raised e
  | Returned hrefs =>
      match first_lyrics_link hrefs with
      | None => Returned None
      | Some lyrics_url =>
          if negb (truthy lyrics_url) then Returned None
          else
            match requests_get_page lyrics_url with
            | Raised e =>
                if is_request_exception e then Returned None else Raised e
            | Returned page =>
                let title :=
                  match title_tag page with
                  | Some text => text
                  | None => lit "Unknown"
                  end in
                let lyrics_containers :=
                  if truthy (by_attribute page) then by_attribute page
                  else by_class page in
                if negb (truthy lyrics_containers) then
                  Returned (Some {| url := lyrics_url; title := title;
                                    lyrics := None |})
                else
                  Returned
                    (Some {| url := lyrics_url; title := title;
                             lyrics :=
                               Some (strip (join (nl ++ nl)
                                              lyrics_containers)) |})
            end
      end
  end.

End Fetch.

End scrapTheSong.

(** ** Vocabulary of the properties *)

Definition blank (w : str) : bool := forallb isspace w.

(** A string that does not begin with whitespace. *)
Definition tight_head (s : str) : bool :=
  match s with
  | [] => true
  | c :: _ => negb (isspace c)
  end.

(** A text the pattern can capture: non-empty, without closing bracket. *)
Definition label_ok (l : str) : bool :=
  truthy l && forallb (fun c => negb (c =? rbracket)%N) l.

(** A text in which every opening bracket is directly followed by a closing
    one, so that no match starts in it whatever follows it. *)
Fixpoint inert (b : str) : bool :=
  match b with
  | [] => true
  | c :: r =>
      (if (c =? lbracket)%N
       then match r with c' :: _ => (c' =? rbracket)%N | [] => false end
       else true) && inert r
  end.

(** The shape of a result of [re_split]: texts and captured groups
    alternate; no match starts in a text that a marker follows, and the last
    text holds no match. *)
Fixpoint parts_wf (parts : list str) : Prop :=
  match parts with
  | [] => False
  | [p] => search_marker p = None
  | p :: l :: rest => inert p = true /\ label_ok l = true /\ parts_wf rest
  end.

(** A document written back: each label in brackets, followed by its body. *)
Definition render_section (sec : lyrics_section) : str :=
  lbracket :: fst sec ++ rbracket :: snd sec.

Definition render (secs : list lyrics_section) : str :=
  concat (map render_section secs).

(** The parts of a rendered document after its first, empty, text. *)
Definition interleave (secs : list lyrics_section) : list str :=
  concat (map (fun sec => [fst sec; snd sec]) secs).

(** Bodies that stay apart when written one after the other with their
    markers: [b] is the text before the first marker of [secs]. *)
Fixpoint settled (b : str) (secs : list lyrics_section) : Prop :=
  match secs with
  | [] => search_marker b = None
  | sec :: rest =>
      inert b = true /\ label_ok (fst sec) = true /\ settled (snd sec) rest
  end.

(** The text parts of a split, by the parity of their position: the parts
    at even positions when [even] holds of the first. *)
Fixpoint body_spans (even : bool) (parts : list str) : list str :=
  match parts with
  | [] => []
  | p :: r => if even then p :: body_spans false r else body_spans true r
  end.

(** What [GUI_BASED.parse_lyrics_sections] makes of the parts after the
    first: one section per marker whose text is not blank. *)
Fixpoint strict_pairs (rest : list str) : list lyrics_section :=
  match rest with
  | name :: text :: rest' =>
      (if truthy (strip text) then [(strip name, strip text)] else [])
      ++ strict_pairs rest'
  | _ => []
  end.

(** A section as the parsers emit it: label and body trimmed, body not
    empty. *)
Definition normal (sec : lyrics_section) : Prop :=
  strip (fst sec) = fst sec /\ strip (snd sec) = snd sec /\ snd sec <> [].

Definition labelled (sec : lyrics_section) : Prop := fst sec <> [].

(** The lenient loop, step by step: the label a text is filed under, the
    section a text yields, and the pending label after a text and after a
    label. *)
Definition pending_label (cur : option str) : str :=
  match cur with Some n => n | None => [] end.

Definition emitted (cur : option str) (p : str) : list lyrics_section :=
  if truthy (strip p) then [(pending_label cur, strip p)] else [].

Definition after_text (cur : option str) (p : str) : option str :=
  if truthy (strip p) then
    match cur with Some (_ :: _) => None | _ => cur end
  else cur.

Definition after_label (cur : option str) (l : str) : option str :=
  if truthy (strip l) then Some (strip l) else cur.

(** Pending labels are trimmed, and capturable when they come from a
    split. *)
Definition pending_trim (cur : option str) : Prop :=
  match cur with Some n => strip n = n | None => True end.

Definition pending_ok (cur : option str) : Prop :=
  match cur with Some n => label_ok n = true | None => True end.

Definition scenario_1 : str :=
  lit "[Verse 1]" ++ nl ++ lit "Hello" ++ nl ++ lit "World" ++ nl ++ nl
  ++ lit "[Chorus]" ++ nl ++ lit "Sing out".

Definition scenario_2 : str :=
  lit "Intro text" ++ nl ++ lit "[Verse]" ++ nl ++ lit "Body".

(** A document with well-formed markers: a sequence of markers, each a
    label the pattern captures, each followed by a body without opening
    bracket. *)
Definition well_formed (secs : list lyrics_section) : bool :=
  forallb
    (fun sec =>
       label_ok (fst sec)
       && forallb (fun c => negb (c =? lbracket)%N) (snd sec))
    secs.

(** A text with all its whitespace removed. *)
Definition squeeze (s : str) : str := filter (fun c => negb (isspace c)) s.

(** The queries searched in a trace, in order, and the presentations built
    in it. *)
Definition searches (tr : list event) : list str :=
  flat_map (fun e => match e with Searched q => [q] | _ => [] end) tr.

(** A search that found no lyrics: nothing returned, or a document whose
    [lyrics] is [None]. *)
Definition lyrics_absent (r : outcome (option LyricsDocument)) : Prop :=
  r = Returned None \/
  exists d, r = Returned (Some d) /\ lyrics d = None.

(** The parts of a split written back: the captured groups in brackets. *)
Fixpoint unsplit (parts : list str) : str :=
  match parts with
  | [] => []
  | [p] => p
  | p :: l :: rest => p ++ lbracket :: l ++ rbracket :: unsplit rest
  end.

(** The text boxes of a presentation, and the boxes of the lyrics: on every
    slide after the first, the box added last. *)
Definition all_boxes (p : Presentation) : list TextBox :=
  flat_map slide_shapes (slides p).

Definition body_boxes (p : Presentation) : list TextBox :=
  flat_map (fun sl => firstn 1 (rev (slide_shapes sl))) (tl (slides p)).

(** A box that lies within the slide, with equal margins left and right. *)
Definition fits (p : Presentation) (b : TextBox) : Prop :=
  (box_left b + box_width b <= slide_width p)%N /\
  (box_top b + box_height b <= slide_height p)%N /\
  (box_left b + box_width b + box_left b = slide_width p)%N.

(** Boxes placed one below the other without overlap. *)
Fixpoint stacked (shapes : list TextBox) : Prop :=
  match shapes with
  | [] => True
  | b1 :: rest =>
      match rest with
      | [] => True
      | b2 :: _ => (box_top b1 + box_height b1 <= box_top b2)%N
      end /\ stacked rest
  end.

(** A section of the response that the search loop stops at: one of type
    song whose first hit has a URL that is not empty. *)
Definition usable (section : ResultSection) : bool :=
  str_eqb (section_type section) (lit "song")
  && match section_hits section with
     | hit :: _ => truthy (result_url hit)
     | [] => false
     end.

(** The containers the lyrics are read from: those of the attribute
    selector, and those of the class selector only when there are none. *)
Definition chosen_containers (page : LyricsPage) : list str :=
  if truthy (by_attribute page) then by_attribute page else by_class page.

(** The queries searched in the trace of a batch, in order. *)
Definition batch_searches (tr : list batch_event) : list str :=
  flat_map (fun e => match e with SongEvent (Searched q) => [q] | _ => [] end)
    tr.

(** ** Trimming *)

Section Strip.

Lemma lstrip_split (s : str) :
  exists w, s = w ++ lstrip s /\ blank w = true.
Proof.
  induction s as [|c r [w [E B]]]; simpl.
  - exists []; split; reflexivity.
  - destruct (isspace c) eqn:Hc.
    + exists (c :: w); simpl; rewrite Hc, B.
      split; [f_equal; exact E|reflexivity].
    + exists []; split; reflexivity.
Qed.

Lemma rstrip_split (s : str) :
  exists w, s = rstrip s ++ w /\ blank w = true.
Proof.
  unfold rstrip.
  destruct (lstrip_split (rev s)) as [w [E B]].
  exists (rev w); split.
  - rewrite <- rev_app_distr, <- E, rev_involutive; reflexivity.
  - unfold blank in *; rewrite forallb_forall in *.
    intros c Hc; apply B; apply in_rev; exact Hc.
Qed.

Lemma strip_split (s : str) :
  exists w1 w2, s = w1 ++ strip s ++ w2 /\ blank w1 = true /\ blank w2 = true.
Proof.
  destruct (lstrip_split s) as [w1 [E1 B1]].
  destruct (rstrip_split (lstrip s)) as [w2 [E2 B2]].
  exists w1, w2; unfold strip; split; [|split; assumption].
  rewrite <- E2; exact E1.
Qed.

Lemma lstrip_tight (s : str) : tight_head (lstrip s) = true.
Proof.
  induction s as [|c r IH]; simpl; [reflexivity|].
  destruct (isspace c) eqn:Hc; [exact IH|simpl; rewrite Hc; reflexivity].
Qed.

Lemma lstrip_fixed (s : str) : tight_head s = true -> lstrip s = s.
Proof.
  destruct s as [|c r]; simpl; [reflexivity|].
  destruct (isspace c); [discriminate|reflexivity].
Qed.

Lemma rstrip_tight_head (s : str) :
  tight_head s = true -> tight_head (rstrip s) = true.
Proof.
  intros T; destruct (rstrip_split s) as [w [E _]].
  destruct (rstrip s) as [|c r] eqn:R; [reflexivity|].
  rewrite E in T; exact T.
Qed.

Lemma rstrip_fixed (s : str) : tight_head (rev s) = true -> rstrip s = s.
Proof.
  intros T; unfold rstrip; rewrite (lstrip_fixed _ T); apply rev_involutive.
Qed.

(** Trimming a trimmed string changes nothing. *)
Lemma strip_idempotent (s : str) : strip (strip s) = strip s.
Proof.
  unfold strip at 1.
  rewrite lstrip_fixed.
  - apply rstrip_fixed; unfold strip, rstrip.
    rewrite rev_involutive; apply lstrip_tight.
  - unfold strip; apply rstrip_tight_head, lstrip_tight.
Qed.

Lemma strip_nil : strip [] = [].
Proof. reflexivity. Qed.

Lemma blank_not_in (w : str) (c : char) :
  blank w = true -> isspace c = false -> ~ In c w.
Proof.
  unfold blank; rewrite forallb_forall; intros B Hc Hin.
  rewrite (B _ Hin) in Hc; discriminate.
Qed.

Lemma strip_incl (s : str) (c : char) : In c (strip s) -> In c s.
Proof.
  intros Hin; destruct (strip_split s) as [w1 [w2 [E _]]].
  rewrite E; apply in_or_app; right; apply in_or_app; left; exact Hin.
Qed.

End Strip.

(** ** The splitting of a text at its markers *)

Section Splitting.

Lemma re_split_eq (s : str) :
  re_split s =
  match search_marker s with
  | Some (pre, g, t) => pre :: g :: re_split t
  | None => [s]
  end.
Proof.
  rewrite re_split_equation_1.
  destruct (inspect (search_marker s)) as [[[[pre g] t]|] E]; cbn.
  - transitivity (pre :: g :: re_split t); [reflexivity|].
    rewrite E; reflexivity.
  - rewrite E; reflexivity.
Qed.

Lemma span_label_intro (g t : str) :
  forallb (fun c => negb (c =? rbracket)%N) g = true ->
  span_label (g ++ rbracket :: t) = (g, rbracket :: t).
Proof.
  induction g as [|c g IH]; simpl; intros H.
  - reflexivity.
  - apply andb_prop in H; destruct H as [Hc Hg].
    apply negb_true_iff in Hc; rewrite Hc, (IH Hg); reflexivity.
Qed.

Lemma span_label_spec (s g t : str) :
  span_label s = (g, t) ->
  s = g ++ t /\ forallb (fun c => negb (c =? rbracket)%N) g = true.
Proof.
  revert g t; induction s as [|c r IH]; simpl; intros g t.
  - intros [= <- <-]; split; reflexivity.
  - destruct (c =? rbracket)%N eqn:Hc.
    + intros [= <- <-]; split; reflexivity.
    + destruct (span_label r) as [g' t'].
      intros [= <- <-]; destruct (IH _ _ eq_refl) as [E F].
      split; simpl; [f_equal; exact E|rewrite Hc, F; reflexivity].
Qed.

Lemma match_marker_intro (l t : str) :
  label_ok l = true ->
  match_marker (lbracket :: l ++ rbracket :: t) = Some (l, t).
Proof.
  unfold label_ok; intros H; apply andb_prop in H; destruct H as [Hl Hf].
  unfold match_marker; rewrite N.eqb_refl, (span_label_intro _ _ Hf).
  destruct l; [discriminate|]; rewrite N.eqb_refl; reflexivity.
Qed.

Lemma match_marker_spec (s g t : str) :
  match_marker s = Some (g, t) ->
  s = lbracket :: g ++ rbracket :: t /\ label_ok g = true.
Proof.
  destruct s as [|c r]; simpl; [discriminate|].
  destruct (c =? lbracket)%N eqn:Hc; [|discriminate].
  apply N.eqb_eq in Hc; subst c.
  destruct (span_label r) as [[|g0 g'] [|c' t']] eqn:S; try discriminate.
  destruct (c' =? rbracket)%N eqn:Hc'; [|discriminate].
  apply N.eqb_eq in Hc'; subst c'.
  intros [= <- <-]; destruct (span_label_spec _ _ _ S) as [E F].
  split; [rewrite E; reflexivity|].
  unfold label_ok; rewrite F; reflexivity.
Qed.

Lemma match_marker_app (s g t x : str) :
  match_marker s = Some (g, t) -> match_marker (s ++ x) = Some (g, t ++ x).
Proof.
  intros M; destruct (match_marker_spec _ _ _ M) as [E L]; subst s.
  simpl; rewrite <- app_assoc; simpl.
  exact (match_marker_intro _ (t ++ x) L).
Qed.

Lemma search_marker_cons (c : char) (r : str) :
  search_marker (c :: r) =
  match match_marker (c :: r) with
  | Some (g, t) => Some ([], g, t)
  | None =>
      match search_marker r with
      | Some (pre, g, t) => Some (c :: pre, g, t)
      | None => None
      end
  end.
Proof. reflexivity. Qed.

Lemma span_label_tail (s g t : str) :
  span_label s = (g, t) -> t = [] \/ exists t', t = rbracket :: t'.
Proof.
  revert g t; induction s as [|c r IH]; simpl; intros g t.
  - intros [= <- <-]; left; reflexivity.
  - destruct (c =? rbracket)%N eqn:Hc.
    + apply N.eqb_eq in Hc; subst c.
      intros [= <- <-]; right; eexists; reflexivity.
    + destruct (span_label r) as [g' t'].
      intros [= <- <-]; exact (IH _ _ eq_refl).
Qed.

(** An opening bracket that starts no match, although a closing bracket
    occurs after it, is directly followed by a closing bracket. *)
Lemma match_marker_none_closed (r : str) :
  match_marker (lbracket :: r) = None -> In rbracket r ->
  exists r', r = rbracket :: r'.
Proof.
  intros M Hin; simpl in M.
  destruct r as [|c' r']; [destruct Hin|].
  destruct (c' =? rbracket)%N eqn:Hc'.
  - apply N.eqb_eq in Hc'; subst c'; eexists; reflexivity.
  - exfalso; simpl in M; rewrite Hc' in M.
    destruct (span_label r') as [g t] eqn:S.
    destruct (span_label_spec _ _ _ S) as [E F].
    destruct (span_label_tail _ _ _ S) as [->|[t' ->]].
    + rewrite app_nil_r in E; subst r'.
      destruct Hin as [H|H]; [rewrite H, N.eqb_refl in Hc'; discriminate|].
      rewrite forallb_forall in F; specialize (F _ H).
      rewrite N.eqb_refl in F; discriminate.
    + rewrite N.eqb_refl in M; discriminate.
Qed.

Lemma search_marker_spec (s pre g t : str) :
  search_marker s = Some (pre, g, t) ->
  s = pre ++ lbracket :: g ++ rbracket :: t /\
  label_ok g = true /\ inert pre = true.
Proof.
  revert pre; induction s as [|c r IH]; intros pre; [discriminate|].
  rewrite search_marker_cons.
  destruct (match_marker (c :: r)) as [[g1 t1]|] eqn:M.
  - intros [= <- <- <-]; destruct (match_marker_spec _ _ _ M) as [E L].
    repeat split; assumption.
  - destruct (search_marker r) as [[[pre' g'] t']|] eqn:S; [|discriminate].
    intros [= <- <- <-]; destruct (IH _ eq_refl) as [E [L I]].
    repeat split; [simpl; f_equal; exact E|exact L|].
    simpl; rewrite I, andb_true_r.
    destruct (c =? lbracket)%N eqn:Hc; [|reflexivity].
    apply N.eqb_eq in Hc; subst c.
    destruct (match_marker_none_closed _ M) as [r' Hr].
    { rewrite E; apply in_or_app; right; right.
      apply in_or_app; right; left; reflexivity. }
    destruct pre' as [|c' pre'']; rewrite Hr in E; simpl in E.
    + discriminate.
    + injection E as <- _; apply N.eqb_refl.
Qed.

(** No match starts in an inert text, whatever follows it. *)
Lemma search_marker_inert_app (b x : str) :
  inert b = true ->
  search_marker (b ++ x) =
  match search_marker x with
  | Some (pre, g, t) => Some (b ++ pre, g, t)
  | None => None
  end.
Proof.
  induction b as [|c r IH]; intros I.
  - simpl; destruct (search_marker x) as [[[pre g] t]|]; reflexivity.
  - simpl in I; apply andb_prop in I; destruct I as [Ic Ir].
    change ((c :: r) ++ x) with (c :: r ++ x).
    rewrite search_marker_cons, (IH Ir).
    assert (M : match_marker (c :: r ++ x) = None).
    { simpl; destruct (c =? lbracket)%N; [|reflexivity].
      destruct r as [|c' r']; [discriminate|].
      simpl; rewrite Ic; reflexivity. }
    rewrite M; destruct (search_marker x) as [[[pre g] t]|]; reflexivity.
Qed.

Lemma inert_search_none (b : str) :
  inert b = true -> search_marker b = None.
Proof.
  intros I; pose proof (search_marker_inert_app b [] I) as H.
  rewrite app_nil_r in H; exact H.
Qed.

Lemma search_none_suffix (a b : str) :
  search_marker (a ++ b) = None -> search_marker b = None.
Proof.
  induction a as [|c a IH]; [trivial|].
  change ((c :: a) ++ b) with (c :: a ++ b); rewrite search_marker_cons.
  destruct (match_marker (c :: a ++ b)) as [[g t]|]; [discriminate|].
  destruct (search_marker (a ++ b)) as [[[pre g] t]|]; [discriminate|].
  intros _; apply IH; reflexivity.
Qed.

Lemma search_none_prefix (b x : str) :
  search_marker (b ++ x) = None -> search_marker b = None.
Proof.
  induction b as [|c r IH]; [reflexivity|].
  change ((c :: r) ++ x) with (c :: r ++ x); rewrite !search_marker_cons.
  destruct (match_marker (c :: r)) as [[g t]|] eqn:M.
  - rewrite (match_marker_app _ _ _ x M : match_marker (c :: r ++ x) = _).
    discriminate.
  - destruct (match_marker (c :: r ++ x)) as [[g t]|]; [discriminate|].
    destruct (search_marker (r ++ x)) as [[[pre g] t]|]; [discriminate|].
    intros _; rewrite (IH eq_refl); reflexivity.
Qed.

Lemma inert_suffix (a b : str) : inert (a ++ b) = true -> inert b = true.
Proof.
  induction a as [|c a IH]; [trivial|].
  simpl; intros H; apply andb_prop in H; apply IH, H.
Qed.

Lemma inert_prefix (b w : str) :
  ~ In rbracket w -> inert (b ++ w) = true -> inert b = true.
Proof.
  intros Hw; induction b as [|c r IH]; [reflexivity|].
  simpl; intros H; apply andb_prop in H; destruct H as [Hc Hr].
  rewrite (IH Hr), andb_true_r.
  destruct (c =? lbracket)%N; [|reflexivity].
  destruct r as [|c' r']; [|exact Hc].
  simpl in Hc; destruct w as [|c' w']; [discriminate|].
  apply N.eqb_eq in Hc; subst c'; exfalso; apply Hw; left; reflexivity.
Qed.

Lemma rbracket_not_space : isspace rbracket = false.
Proof. reflexivity. Qed.

Lemma inert_strip (b : str) : inert b = true -> inert (strip b) = true.
Proof.
  intros I; destruct (strip_split b) as [w1 [w2 [E [B1 B2]]]].
  rewrite E in I; apply inert_suffix in I.
  apply (inert_prefix _ w2); [|exact I].
  apply blank_not_in; [exact B2|exact rbracket_not_space].
Qed.

Lemma search_none_strip (b : str) :
  search_marker b = None -> search_marker (strip b) = None.
Proof.
  intros H; destruct (strip_split b) as [w1 [w2 [E _]]].
  rewrite E in H; apply search_none_suffix in H.
  apply search_none_prefix in H; exact H.
Qed.

Lemma label_ok_strip (l : str) :
  label_ok l = true -> strip l <> [] -> label_ok (strip l) = true.
Proof.
  unfold label_ok; intros H Hne; apply andb_prop in H; destruct H as [_ F].
  apply andb_true_intro; split.
  - destruct (strip l); [congruence|reflexivity].
  - rewrite forallb_forall in *; intros c Hc; apply F, strip_incl, Hc.
Qed.

(** The result of [re_split] has the shape [parts_wf]. *)
Lemma re_split_wf (s : str) : parts_wf (re_split s).
Proof.
  remember (length s) as n eqn:Hn; revert s Hn.
  induction n as [n IH] using lt_wf_ind; intros s Hn.
  rewrite re_split_eq.
  destruct (search_marker s) as [[[pre g] t]|] eqn:S.
  - destruct (search_marker_spec _ _ _ _ S) as [E [L I]].
    pose proof (search_marker_length _ _ _ _ S) as Hlt.
    cbn [parts_wf]; repeat split; [exact I|exact L|].
    apply (IH (length t)); [lia|reflexivity].
  - exact S.
Qed.

(** A settled document splits back into its labels and bodies. *)
Lemma re_split_render (secs : list lyrics_section) :
  forall b,
    settled b secs -> re_split (b ++ render secs) = b :: interleave secs.
Proof.
  induction secs as [|[l b'] rest IH]; intros b H.
  - simpl in H; unfold render; simpl; rewrite app_nil_r, re_split_eq, H.
    reflexivity.
  - destruct H as [I [L H']]; simpl in L, H'.
    rewrite re_split_eq.
    change (render ((l, b') :: rest))
      with (render_section (l, b') ++ render rest).
    unfold render_section; simpl fst; simpl snd.
    rewrite (search_marker_inert_app b _ I).
    change ((lbracket :: l ++ rbracket :: b') ++ render rest)
      with (lbracket :: (l ++ rbracket :: b') ++ render rest).
    rewrite <- app_assoc; simpl ((rbracket :: b') ++ render rest).
    rewrite search_marker_cons, (match_marker_intro l _ L), app_nil_r.
    rewrite (IH _ H'); reflexivity.
Qed.

End Splitting.

(** ** The two parsers as recursions over the parts *)

Section Parsers.

Lemma pair_induction {A} (P : list A -> Prop) :
  P [] -> (forall a, P [a]) -> (forall a b l, P l -> P (a :: b :: l)) ->
  forall l, P l.
Proof.
  intros H0 H1 H2.
  assert (H : forall l, P l /\ forall a, P (a :: l)).
  { induction l as [|x l [IH1 IH2]]; split; auto. }
  intros l; apply H.
Qed.

Lemma range_count_pairs (n : nat) : (n + 2 + 1) / 2 = S ((n + 1) / 2).
Proof.
  replace (n + 2 + 1) with (n + 1 + 1 * 2) by lia.
  rewrite Nat.div_add by lia; lia.
Qed.

Lemma strict_loop_eq (rest : list str) :
  forall done acc,
    fold_left (GUI_BASED.parse_step (done ++ rest))
      (range_count (length done) 2 ((length rest + 1) / 2)) acc
    = acc ++ strict_pairs rest.
Proof.
  induction rest as [|a|a b l IH] using pair_induction; intros done acc.
  - simpl; rewrite app_nil_r; reflexivity.
  - change ((length [a] + 1) / 2) with 1; cbn [range_count fold_left].
    unfold GUI_BASED.parse_step.
    rewrite length_app; cbn [length].
    replace (length done <? length done + 1) with true
      by (symmetry; apply Nat.ltb_lt; lia).
    replace (length done + 1 <? length done + 1) with false
      by (symmetry; apply Nat.ltb_ge; lia).
    simpl; rewrite app_nil_r; reflexivity.
  - cbn [length]; replace (S (S (length l)) + 1) with (length l + 2 + 1) by lia.
    rewrite range_count_pairs; cbn [range_count fold_left].
    replace (length done + 2) with (length (done ++ [a; b]))
      by (rewrite length_app; reflexivity).
    replace (done ++ a :: b :: l) with ((done ++ [a; b]) ++ l)
      by (rewrite <- app_assoc; reflexivity).
    rewrite IH; cbn [strict_pairs].
    unfold GUI_BASED.parse_step.
    rewrite <- app_assoc; cbn [app].
    rewrite !length_app; cbn [length].
    replace (length done <? length done + S (S (length l))) with true
      by (symmetry; apply Nat.ltb_lt; lia).
    replace (length done + 1 <? length done + S (S (length l))) with true
      by (symmetry; apply Nat.ltb_lt; lia).
    rewrite nth_middle.
    replace (done ++ a :: b :: l) with ((done ++ [a]) ++ b :: l)
      by (rewrite <- app_assoc; reflexivity).
    replace (length done + 1) with (length (done ++ [a]))
      by (rewrite length_app; reflexivity).
    rewrite nth_middle.
    destruct (truthy (strip b)); [|rewrite app_nil_l; reflexivity].
    rewrite <- app_assoc; reflexivity.
Qed.

(** The strict parser drops the first part and pairs up the others. *)
Lemma strict_parse_eq (s : str) :
  GUI_BASED.parse_lyrics_sections s = strict_pairs (tl (re_split s)).
Proof.
  unfold GUI_BASED.parse_lyrics_sections, Py.range.
  destruct (re_split s) as [|p rest]; [reflexivity|].
  cbn [tl length].
  replace (S (length rest) - 1 + 2 - 1) with (length rest + 1) by lia.
  exact (strict_loop_eq rest [p] []).
Qed.

Lemma parity_test (i : nat) : (i mod 2 =? 1) = Nat.odd i.
Proof.
  rewrite <- Nat.bit0_mod, Nat.bit0_odd.
  destruct (Nat.odd i); reflexivity.
Qed.

Lemma parse_loop_cons st i p rest :
  scrappingPpptx.parse_loop st i (p :: rest) =
  scrappingPpptx.parse_loop (scrappingPpptx.parse_step st (i, p)) (S i) rest.
Proof. reflexivity. Qed.

Lemma parse_loop_nil st i : scrappingPpptx.parse_loop st i [] = st.
Proof. reflexivity. Qed.

Lemma parse_loop_app st i a b :
  scrappingPpptx.parse_loop st i (a ++ b) =
  scrappingPpptx.parse_loop (scrappingPpptx.parse_loop st i a)
    (i + length a) b.
Proof.
  revert st i; induction a as [|p a IH]; intros st i.
  - simpl; rewrite parse_loop_nil, Nat.add_0_r; reflexivity.
  - change ((p :: a) ++ b) with (p :: a ++ b).
    rewrite !parse_loop_cons, IH; cbn [length].
    replace (S i + length a) with (i + S (length a)) by lia; reflexivity.
Qed.

(** The step at an odd position: a label that is not blank becomes the
    pending one. *)
Lemma parse_step_odd secs cur i l :
  Nat.odd i = true ->
  scrappingPpptx.parse_step (secs, cur) (i, l) =
  if truthy (strip l) then (secs, Some (strip l)) else (secs, cur).
Proof.
  intros Hi; unfold scrappingPpptx.parse_step.
  rewrite parity_test, Hi; destruct (truthy (strip l)); reflexivity.
Qed.

(** The step at an even position: a text that is not blank becomes a
    section, under the pending label if there is one. *)
Lemma parse_step_even secs cur i p :
  Nat.odd i = false ->
  scrappingPpptx.parse_step (secs, cur) (i, p) =
  if truthy (strip p) then
    match cur with
    | Some (c :: n) => (secs ++ [(c :: n, strip p)], None)
    | _ => (secs ++ [([], strip p)], cur)
    end
  else (secs, cur).
Proof.
  intros Hi; unfold scrappingPpptx.parse_step.
  rewrite parity_test, Hi.
  destruct (truthy (strip p)) eqn:T; [|reflexivity]; simpl.
  destruct cur as [[|c n]|]; reflexivity.
Qed.

Lemma parse_step_acc secs cur ip :
  scrappingPpptx.parse_step (secs, cur) ip =
  (secs ++ fst (scrappingPpptx.parse_step ([], cur) ip),
   snd (scrappingPpptx.parse_step ([], cur) ip)).
Proof.
  destruct ip as [i p]; unfold scrappingPpptx.parse_step.
  rewrite parity_test.
  destruct (truthy (strip p)); cbn [negb fst snd];
    [|rewrite app_nil_r; reflexivity].
  destruct (Nat.odd i); cbn [fst snd]; [rewrite app_nil_r; reflexivity|].
  destruct cur as [[|c n]|]; reflexivity.
Qed.

(** Sections are only ever appended. *)
Lemma parse_loop_acc parts :
  forall secs cur i,
    scrappingPpptx.parse_loop (secs, cur) i parts =
    (secs ++ fst (scrappingPpptx.parse_loop ([], cur) i parts),
     snd (scrappingPpptx.parse_loop ([], cur) i parts)).
Proof.
  induction parts as [|p rest IH]; intros secs cur i.
  - rewrite !parse_loop_nil; simpl; rewrite app_nil_r; reflexivity.
  - rewrite !parse_loop_cons, parse_step_acc.
    destruct (scrappingPpptx.parse_step ([], cur) (i, p)) as [s1 c1].
    cbn [fst snd]; rewrite (IH (secs ++ s1)), (IH s1); cbn [fst snd].
    rewrite app_assoc; reflexivity.
Qed.

End Parsers.

(** ** Shape of the parsed sections *)

Section Shape.

Lemma truthy_true {A} (l : list A) : truthy l = true <-> l <> [].
Proof. destruct l; simpl; split; congruence. Qed.

Lemma filter_truthy_concat {A} (l : list (list A)) :
  concat (filter truthy l) = concat l.
Proof.
  induction l as [|x l IH]; simpl; [reflexivity|].
  destruct x; simpl; [exact IH|rewrite IH; reflexivity].
Qed.

Lemma strict_bodies (rest : list str) :
  map snd (strict_pairs rest) =
  filter truthy (map strip (body_spans false rest)).
Proof.
  induction rest as [|a|a b l IH] using pair_induction; try reflexivity.
  cbn [strict_pairs body_spans map filter].
  rewrite map_app, IH; destruct (truthy (strip b)); reflexivity.
Qed.

Lemma lenient_bodies (parts : list str) :
  forall cur i,
    map snd (fst (scrappingPpptx.parse_loop ([], cur) i parts)) =
    filter truthy (map strip (body_spans (negb (Nat.odd i)) parts)).
Proof.
  induction parts as [|p rest IH]; intros cur i; [reflexivity|].
  rewrite parse_loop_cons; cbn [body_spans].
  replace (Nat.odd i) with (negb (Nat.odd (S i)))
    by (rewrite Nat.odd_succ, Nat.negb_even; reflexivity).
  rewrite negb_involutive.
  destruct (Nat.odd (S i)) eqn:Hi; cbn [negb].
  - (* [S i] is odd: [p] is a text *)
    assert (Ho : Nat.odd i = false).
    { rewrite Nat.odd_succ in Hi; rewrite <- Nat.negb_even, Hi; reflexivity. }
    rewrite (parse_step_even [] cur i p Ho).
    cbn [map filter]; destruct (truthy (strip p)).
    + destruct cur as [[|c n]|]; rewrite parse_loop_acc; cbn [fst];
        rewrite map_app, IH, Hi; reflexivity.
    + rewrite IH, Hi; reflexivity.
  - assert (Ho : Nat.odd i = true).
    { rewrite Nat.odd_succ in Hi; rewrite <- Nat.negb_even, Hi; reflexivity. }
    rewrite (parse_step_odd [] cur i p Ho).
    destruct (truthy (strip p)); rewrite IH, Hi; reflexivity.
Qed.

Lemma strict_normal (rest : list str) : Forall normal (strict_pairs rest).
Proof.
  induction rest as [|a|a b l IH] using pair_induction;
    try (apply Forall_nil).
  cbn [strict_pairs]; apply Forall_app; split; [|exact IH].
  destruct (truthy (strip b)) eqn:T; [|apply Forall_nil].
  apply Forall_cons; [|apply Forall_nil].
  repeat split; cbn [fst snd]; try apply strip_idempotent.
  apply truthy_true; exact T.
Qed.

Lemma step_text secs cur i p :
  Nat.odd i = false ->
  scrappingPpptx.parse_step (secs, cur) (i, p) =
  (secs ++ emitted cur p, after_text cur p).
Proof.
  intros Hi; rewrite (parse_step_even secs cur i p Hi).
  unfold emitted, after_text; destruct (truthy (strip p));
    [|rewrite app_nil_r; reflexivity].
  destruct cur as [[|c n]|]; reflexivity.
Qed.

Lemma step_label secs cur i l :
  Nat.odd i = true ->
  scrappingPpptx.parse_step (secs, cur) (i, l) = (secs, after_label cur l).
Proof.
  intros Hi; rewrite (parse_step_odd secs cur i l Hi).
  unfold after_label; destruct (truthy (strip l)); reflexivity.
Qed.

Lemma odd_next (i : nat) : Nat.odd (S i) = negb (Nat.odd i).
Proof. rewrite Nat.odd_succ, <- Nat.negb_odd; reflexivity. Qed.

(** A text and the label after it, in one go. *)
Lemma loop_text_label cur i p l rest :
  Nat.odd i = false ->
  scrappingPpptx.parse_loop ([], cur) i (p :: l :: rest) =
  (emitted cur p
   ++ fst (scrappingPpptx.parse_loop
             ([], after_label (after_text cur p) l) (S (S i)) rest),
   snd (scrappingPpptx.parse_loop
          ([], after_label (after_text cur p) l) (S (S i)) rest)).
Proof.
  intros Hi; rewrite !parse_loop_cons, (step_text [] cur i p Hi).
  rewrite step_label by (rewrite odd_next, Hi; reflexivity).
  rewrite parse_loop_acc; reflexivity.
Qed.

Lemma loop_text cur i p :
  Nat.odd i = false ->
  scrappingPpptx.parse_loop ([], cur) i [p] =
  (emitted cur p, after_text cur p).
Proof.
  intros Hi; rewrite parse_loop_cons, parse_loop_nil.
  exact (step_text [] cur i p Hi).
Qed.

Lemma emitted_normal cur p : pending_trim cur -> Forall normal (emitted cur p).
Proof.
  intros Hc; unfold emitted; destruct (truthy (strip p)) eqn:T;
    [|apply Forall_nil].
  apply Forall_cons; [|apply Forall_nil].
  repeat split; cbn [fst snd].
  - destruct cur as [n|]; [exact Hc|reflexivity].
  - apply strip_idempotent.
  - apply truthy_true; exact T.
Qed.

Lemma after_text_trim cur p :
  pending_trim cur -> pending_trim (after_text cur p).
Proof.
  unfold after_text; destruct (truthy (strip p)); [|trivial].
  destruct cur as [[|c n]|]; simpl; trivial.
Qed.

Lemma after_label_trim cur l :
  pending_trim cur -> pending_trim (after_label cur l).
Proof.
  unfold after_label; destruct (truthy (strip l)); [|trivial].
  intros _; apply strip_idempotent.
Qed.

Lemma after_text_ok cur p : pending_ok cur -> pending_ok (after_text cur p).
Proof.
  unfold after_text; destruct (truthy (strip p)); [|trivial].
  destruct cur as [[|c n]|]; simpl; trivial.
Qed.

Lemma after_label_ok cur l :
  label_ok l = true -> pending_ok cur -> pending_ok (after_label cur l).
Proof.
  unfold after_label; destruct (truthy (strip l)) eqn:T; [|trivial].
  intros L _; apply label_ok_strip; [exact L|apply truthy_true; exact T].
Qed.

Lemma lenient_normal (parts : list str) :
  forall cur i,
    Nat.odd i = false -> pending_trim cur ->
    Forall normal (fst (scrappingPpptx.parse_loop ([], cur) i parts)).
Proof.
  induction parts as [|p|p l rest IH] using pair_induction;
    intros cur i Hi Hc.
  - apply Forall_nil.
  - rewrite (loop_text cur i p Hi); apply emitted_normal, Hc.
  - rewrite (loop_text_label cur i p l rest Hi); cbn [fst].
    apply Forall_app; split; [apply emitted_normal, Hc|].
    apply IH; [rewrite !odd_next, Hi; reflexivity|].
    apply after_label_trim, after_text_trim, Hc.
Qed.

(** The sections of the strict parser are settled as soon as they all
    carry a label. *)
Lemma strict_settled (rest : list str) :
  forall p b,
    parts_wf (p :: rest) -> inert b = true ->
    Forall labelled (strict_pairs rest) ->
    settled b (strict_pairs rest).
Proof.
  induction rest as [|a|l p' rest IH] using pair_induction;
    intros p b W I HL.
  - apply inert_search_none, I.
  - apply inert_search_none, I.
  - destruct W as [_ [L W]]; cbn [strict_pairs] in *.
    apply Forall_app in HL; destruct HL as [HL1 HL2].
    destruct (truthy (strip p')) eqn:T; cbn [app].
    + apply Forall_inv in HL1; unfold labelled in HL1; cbn [fst] in HL1.
      cbn [settled fst snd]; repeat split;
        [exact I|apply label_ok_strip; assumption|].
      destruct rest as [|l' rest'].
      * apply search_none_strip, W.
      * apply (IH p'); [exact W| |exact HL2].
        destruct rest' as [|p'' rest'']; [destruct W as [? [? []]]|].
        apply inert_strip, W.
    + apply (IH p'); assumption.
Qed.

Lemma lenient_settled (parts : list str) :
  forall cur i b,
    parts_wf parts -> Nat.odd i = false -> inert b = true ->
    pending_ok cur ->
    Forall labelled (fst (scrappingPpptx.parse_loop ([], cur) i parts)) ->
    settled b (fst (scrappingPpptx.parse_loop ([], cur) i parts)).
Proof.
  induction parts as [|p|p l rest IH] using pair_induction;
    intros cur i b W Hi I Hc.
  - destruct W.
  - rewrite (loop_text cur i p Hi); cbn [fst]; unfold emitted.
    destruct (truthy (strip p)); [|intros _; apply inert_search_none, I].
    intros HL; apply Forall_inv in HL; unfold labelled in HL; cbn [fst] in HL.
    cbn [settled fst snd]; repeat split; [exact I| |apply search_none_strip, W].
    destruct cur as [n|]; [exact Hc|contradiction HL; reflexivity].
  - destruct W as [Ip [L W]].
    rewrite (loop_text_label cur i p l rest Hi); cbn [fst].
    intros HL; apply Forall_app in HL; destruct HL as [HL1 HL2].
    assert (Hi' : Nat.odd (S (S i)) = false)
      by (rewrite !odd_next, Hi; reflexivity).
    assert (Hc' : pending_ok (after_label (after_text cur p) l))
      by (apply after_label_ok, after_text_ok; assumption).
    unfold emitted in *; destruct (truthy (strip p)); cbn [app].
    + apply Forall_inv in HL1; unfold labelled in HL1; cbn [fst] in HL1.
      cbn [settled fst snd]; repeat split; [exact I| |].
      * destruct cur as [n|]; [exact Hc|contradiction HL1; reflexivity].
      * apply IH; try assumption; apply inert_strip, Ip.
    + apply IH; assumption.
Qed.

(** Parsing the parts of a document of normal, labelled sections gives the
    sections back. *)
Lemma strict_interleave (secs : list lyrics_section) :
  Forall normal secs -> strict_pairs (interleave secs) = secs.
Proof.
  induction secs as [|[l b] rest IH]; intros H; [reflexivity|].
  apply Forall_cons_iff in H; destruct H as [[Nl [Nb Ne]] H].
  cbn [fst snd] in *.
  change (interleave ((l, b) :: rest)) with (l :: b :: interleave rest).
  cbn [strict_pairs]; rewrite Nl, Nb, (IH H).
  destruct b; [congruence|reflexivity].
Qed.

Lemma lenient_interleave (secs : list lyrics_section) :
  forall cur i,
    Forall normal secs -> Forall labelled secs -> Nat.odd i = true ->
    fst (scrappingPpptx.parse_loop ([], cur) i (interleave secs)) = secs.
Proof.
  induction secs as [|[l b] rest IH]; intros cur i H HL Hi; [reflexivity|].
  apply Forall_cons_iff in H; destruct H as [[Nl [Nb Ne]] H].
  apply Forall_cons_iff in HL; destruct HL as [Hl HL].
  unfold labelled in Hl; cbn [fst snd] in *.
  change (interleave ((l, b) :: rest)) with (l :: b :: interleave rest).
  rewrite !parse_loop_cons, (step_label [] cur i l Hi).
  rewrite step_text by (rewrite odd_next, Hi; reflexivity).
  rewrite parse_loop_acc; cbn [fst].
  rewrite IH; [|assumption|assumption|rewrite !odd_next, Hi; reflexivity].
  unfold emitted, after_label; rewrite Nl, Nb.
  destruct l; [congruence|]; destruct b; [congruence|reflexivity].
Qed.

End Shape.

(** ** Font sizes *)

Section FontSize.

Local Open Scope Z_scope.

Ltac tiers :=
  repeat match goal with
         | |- context [?a <? ?b] => destruct (Z.ltb_spec a b)
         end; try lia.

(** C1.  For every integer character count the font-size function of the
    GUI script returns the value of the ten-tier table (counts below 80,
    zero and negative ones included, give 48; then 44 below 120, 40 below
    180, 36 below 250, 32 below 350, 28 below 450, 26 below 600, 24 below
    800, 22 below 1000, and 20 from 1000 on), with 48 at 50 and 79, 44 at 80
    and 20 at 10000.  The command-line script has a coarser table: 44 below
    100, 36 below 200, 32 below 300, 28 below 500, 24 below 700, 20 from 700
    on. *)
Theorem font_size_tiers (n : Z) :
  ((n < 80 -> GUI_BASED.calculate_font_size n = 48) /\
   (80 <= n < 120 -> GUI_BASED.calculate_font_size n = 44) /\
   (120 <= n < 180 -> GUI_BASED.calculate_font_size n = 40) /\
   (180 <= n < 250 -> GUI_BASED.calculate_font_size n = 36) /\
   (250 <= n < 350 -> GUI_BASED.calculate_font_size n = 32) /\
   (350 <= n < 450 -> GUI_BASED.calculate_font_size n = 28) /\
   (450 <= n < 600 -> GUI_BASED.calculate_font_size n = 26) /\
   (600 <= n < 800 -> GUI_BASED.calculate_font_size n = 24) /\
   (800 <= n < 1000 -> GUI_BASED.calculate_font_size n = 22) /\
   (1000 <= n -> GUI_BASED.calculate_font_size n = 20)) /\
  (GUI_BASED.calculate_font_size 50 = 48 /\
   GUI_BASED.calculate_font_size 79 = 48 /\
   GUI_BASED.calculate_font_size 80 = 44 /\
   GUI_BASED.calculate_font_size 10000 = 20) /\
  ((n < 100 -> scrappingPpptx.calculate_font_size n = 44) /\
   (100 <= n < 200 -> scrappingPpptx.calculate_font_size n = 36) /\
   (200 <= n < 300 -> scrappingPpptx.calculate_font_size n = 32) /\
   (300 <= n < 500 -> scrappingPpptx.calculate_font_size n = 28) /\
   (500 <= n < 700 -> scrappingPpptx.calculate_font_size n = 24) /\
   (700 <= n -> scrappingPpptx.calculate_font_size n = 20)).
Proof.
  split; [|split].
  - unfold GUI_BASED.calculate_font_size; repeat split; intros H; tiers.
  - repeat split; reflexivity.
  - unfold scrappingPpptx.calculate_font_size; repeat split; intros H; tiers.
Qed.

Lemma font_size_tiers_witness :
  GUI_BASED.calculate_font_size 100 = 44 /\
  scrappingPpptx.calculate_font_size 100 = 36.
Proof.
  destruct (font_size_tiers 100) as [[_ [G _]] [_ [_ [S _]]]].
  split; [apply G; lia|apply S; lia].
Defined.

(** The table of the specification does not describe the command-line
    script: 50 characters are set in 44 points there, not 48. *)
Lemma font_size_cli_differs :
  scrappingPpptx.calculate_font_size 50 = 44 /\
  scrappingPpptx.calculate_font_size 50 <> 48 /\
  scrappingPpptx.calculate_font_size 79 <> 48.
Proof. repeat split; vm_compute; congruence. Qed.

(** C2.  Both font-size functions are total and monotonically
    non-increasing: a text that is not shorter is never set larger. *)
Theorem font_size_monotone (a b : Z) :
  a <= b ->
  GUI_BASED.calculate_font_size b <= GUI_BASED.calculate_font_size a /\
  scrappingPpptx.calculate_font_size b <= scrappingPpptx.calculate_font_size a.
Proof.
  intros H; split.
  - unfold GUI_BASED.calculate_font_size; tiers.
  - unfold scrappingPpptx.calculate_font_size; tiers.
Qed.

Lemma font_size_monotone_witness :
  GUI_BASED.calculate_font_size 300 <= GUI_BASED.calculate_font_size 90 /\
  scrappingPpptx.calculate_font_size 300
  <= scrappingPpptx.calculate_font_size 90.
Proof. apply font_size_monotone; lia. Defined.

End FontSize.

(** ** The scenarios of the specification *)

Section Scenarios.

Lemma inert_no_open (b : str) : ~ In lbracket b -> inert b = true.
Proof.
  induction b as [|c r IH]; intros H; [reflexivity|].
  simpl; rewrite IH by (intros Hr; apply H; right; exact Hr).
  destruct (c =? lbracket)%N eqn:Hc; [|reflexivity].
  apply N.eqb_eq in Hc; exfalso; apply H; left; congruence.
Qed.

Lemma re_split_marker (l t : str) :
  label_ok l = true ->
  re_split (lbracket :: l ++ rbracket :: t) = [] :: l :: re_split t.
Proof.
  intros L; rewrite re_split_eq, search_marker_cons.
  rewrite (match_marker_intro l t L); reflexivity.
Qed.

(** C7.  On the first scenario the strict parser returns the two sections
    "Verse 1" and "Chorus" with their trimmed texts, in this order. *)
Theorem strict_scenario_1 :
  GUI_BASED.parse_lyrics_sections scenario_1 =
  [(lit "Verse 1", lit "Hello" ++ nl ++ lit "World");
   (lit "Chorus", lit "Sing out")].
Proof. vm_compute; reflexivity. Qed.

(** C4.  On the second scenario the lenient parser keeps the leading text
    as a section without label and the strict parser drops it.  In general,
    with [pre] the text before the first marker of a document, the strict
    parser returns what it returns for the document without [pre], and the
    lenient parser returns that with, when [pre] is not blank, a section of
    empty label for [pre] in front. *)
Theorem leading_text :
  scrappingPpptx.parse_lyrics_sections scenario_2 =
    [(lit "", lit "Intro text"); (lit "Verse", lit "Body")] /\
  GUI_BASED.parse_lyrics_sections scenario_2 = [(lit "Verse", lit "Body")] /\
  (forall s pre l t,
     search_marker s = Some (pre, l, t) ->
     GUI_BASED.parse_lyrics_sections s =
     GUI_BASED.parse_lyrics_sections (lbracket :: l ++ rbracket :: t)) /\
  (forall s pre l t,
     search_marker s = Some (pre, l, t) -> strip pre <> [] ->
     scrappingPpptx.parse_lyrics_sections s =
     ([], strip pre)
     :: scrappingPpptx.parse_lyrics_sections (lbracket :: l ++ rbracket :: t)).
Proof.
  split; [vm_compute; reflexivity|].
  split; [vm_compute; reflexivity|].
  split.
  - intros s pre l t S.
    destruct (search_marker_spec s pre l t S) as [_ [L _]].
    rewrite !strict_parse_eq, (re_split_eq s), S, (re_split_marker l t L).
    reflexivity.
  - intros s pre l t S Hne.
    destruct (search_marker_spec s pre l t S) as [_ [L _]].
    unfold scrappingPpptx.parse_lyrics_sections.
    rewrite (re_split_eq s), S, (re_split_marker l t L).
    rewrite !loop_text_label by reflexivity; cbn [fst].
    unfold emitted, after_text; rewrite strip_nil; cbn [truthy app].
    apply truthy_true in Hne; rewrite Hne; reflexivity.
Qed.

Lemma leading_text_witness :
  GUI_BASED.parse_lyrics_sections (lit "Intro [A]x") =
    GUI_BASED.parse_lyrics_sections (lbracket :: lit "A" ++ rbracket :: lit "x")
  /\
  scrappingPpptx.parse_lyrics_sections (lit "Intro [A]x") =
    ([], strip (lit "Intro "))
    :: scrappingPpptx.parse_lyrics_sections
         (lbracket :: lit "A" ++ rbracket :: lit "x").
Proof.
  destruct leading_text as [_ [_ [S L]]]; split.
  - apply (S (lit "Intro [A]x") (lit "Intro ") (lit "A") (lit "x")).
    reflexivity.
  - apply (L (lit "Intro [A]x") (lit "Intro ") (lit "A") (lit "x"));
      [reflexivity|vm_compute; discriminate].
Defined.

(** C3.  Every section returned by either parser has a body that is
    trimmed and not empty; the bodies are, in order, the trimmed text spans
    that are not blank (all spans for the lenient parser, those after a
    marker for the strict one), so a blank span yields no section. *)
Theorem bodies_not_empty (s : str) :
  Forall (fun sec => strip (snd sec) = snd sec /\ strip (snd sec) <> [])
    (GUI_BASED.parse_lyrics_sections s) /\
  Forall (fun sec => strip (snd sec) = snd sec /\ strip (snd sec) <> [])
    (scrappingPpptx.parse_lyrics_sections s) /\
  map snd (GUI_BASED.parse_lyrics_sections s) =
    filter truthy (map strip (body_spans false (tl (re_split s)))) /\
  map snd (scrappingPpptx.parse_lyrics_sections s) =
    filter truthy (map strip (body_spans true (re_split s))).
Proof.
  assert (N : forall secs, Forall normal secs ->
            Forall (fun sec => strip (snd sec) = snd sec
                               /\ strip (snd sec) <> []) secs).
  { intros secs H; eapply Forall_impl; [|exact H].
    intros sec [_ [Hb Hne]]; split; [exact Hb|rewrite Hb; exact Hne]. }
  repeat split.
  - apply N; rewrite strict_parse_eq; apply strict_normal.
  - apply N; apply lenient_normal; [reflexivity|exact I].
  - rewrite strict_parse_eq; apply strict_bodies.
  - exact (lenient_bodies (re_split s) None 0).
Qed.

End Scenarios.

(** ** Reconstruction *)

Section Reconstruction.

Lemma no_open_spec (b : str) :
  forallb (fun c => negb (c =? lbracket)%N) b = true -> ~ In lbracket b.
Proof.
  rewrite forallb_forall; intros F Hin; specialize (F _ Hin).
  rewrite N.eqb_refl in F; discriminate.
Qed.

Lemma well_formed_settled (secs : list lyrics_section) :
  forall b, inert b = true -> well_formed secs = true -> settled b secs.
Proof.
  induction secs as [|[l b'] rest IH]; intros b I W.
  - apply inert_search_none, I.
  - simpl in W; apply andb_prop in W; destruct W as [W1 W2].
    apply andb_prop in W1; destruct W1 as [L B].
    cbn [settled fst snd]; repeat split; [exact I|exact L|].
    apply IH; [apply inert_no_open, no_open_spec, B|exact W2].
Qed.

Lemma body_spans_interleave (secs : list lyrics_section) :
  body_spans false (interleave secs) = map snd secs.
Proof.
  induction secs as [|[l b] rest IH]; [reflexivity|].
  change (interleave ((l, b) :: rest)) with (l :: b :: interleave rest).
  cbn [body_spans map snd]; rewrite IH; reflexivity.
Qed.

Lemma squeeze_blank (w : str) : blank w = true -> squeeze w = [].
Proof.
  induction w as [|c w IH]; simpl; [reflexivity|].
  intros H; apply andb_prop in H; destruct H as [Hc Hw].
  rewrite Hc; simpl; apply IH, Hw.
Qed.

Lemma squeeze_strip (b : str) : squeeze (strip b) = squeeze b.
Proof.
  destruct (strip_split b) as [w1 [w2 [E [B1 B2]]]].
  rewrite E at 2; unfold squeeze; rewrite !filter_app.
  fold (squeeze w1) (squeeze w2).
  rewrite (squeeze_blank w1 B1), (squeeze_blank w2 B2), app_nil_r.
  reflexivity.
Qed.

Lemma squeeze_concat_strip (bs : list str) :
  squeeze (concat (map strip bs)) = squeeze (concat bs).
Proof.
  induction bs as [|b bs IH]; [reflexivity|].
  simpl; unfold squeeze in *; rewrite !filter_app, IH.
  fold (squeeze (strip b)); rewrite squeeze_strip; reflexivity.
Qed.

(** C5.  For a document with well-formed markers, the bodies returned by
    either parser are, in order, the trimmed bodies of the document that are
    not blank; concatenated they are the concatenation of the trimmed
    bodies, and so the text outside the labels up to whitespace. *)
Theorem bodies_reconstruct (secs : list lyrics_section) :
  well_formed secs = true ->
  (map snd (GUI_BASED.parse_lyrics_sections (render secs)) =
     filter truthy (map strip (map snd secs)) /\
   concat (map snd (GUI_BASED.parse_lyrics_sections (render secs))) =
     concat (map strip (map snd secs)) /\
   squeeze (concat (map snd (GUI_BASED.parse_lyrics_sections (render secs))))
     = squeeze (concat (map snd secs))) /\
  (map snd (scrappingPpptx.parse_lyrics_sections (render secs)) =
     filter truthy (map strip (map snd secs)) /\
   concat (map snd (scrappingPpptx.parse_lyrics_sections (render secs))) =
     concat (map strip (map snd secs)) /\
   squeeze
     (concat (map snd (scrappingPpptx.parse_lyrics_sections (render secs))))
     = squeeze (concat (map snd secs))).
Proof.
  intros W.
  pose proof (re_split_render secs []
                (well_formed_settled secs [] eq_refl W)) as R.
  cbn [app] in R.
  assert (G : map snd (GUI_BASED.parse_lyrics_sections (render secs)) =
              filter truthy (map strip (map snd secs))).
  { rewrite strict_parse_eq, strict_bodies, R; cbn [tl].
    rewrite body_spans_interleave; reflexivity. }
  assert (S : map snd (scrappingPpptx.parse_lyrics_sections (render secs)) =
              filter truthy (map strip (map snd secs))).
  { unfold scrappingPpptx.parse_lyrics_sections.
    rewrite (lenient_bodies (re_split (render secs)) None 0), R.
    cbn [Nat.odd Nat.even negb body_spans map].
    rewrite body_spans_interleave, strip_nil; reflexivity. }
  split; (split; [assumption|]).
  - rewrite G, filter_truthy_concat, squeeze_concat_strip; split; reflexivity.
  - rewrite S, filter_truthy_concat, squeeze_concat_strip; split; reflexivity.
Qed.

Lemma bodies_reconstruct_witness :
  let secs := [(lit "Verse 1", nl ++ lit "Hello " ++ nl);
               (lit "Bridge", lit "  "); (lit "Chorus", nl ++ lit "Sing")] in
  concat (map snd (GUI_BASED.parse_lyrics_sections (render secs))) =
    lit "HelloSing" /\
  concat (map snd (scrappingPpptx.parse_lyrics_sections (render secs))) =
    lit "HelloSing".
Proof.
  intros secs.
  destruct (bodies_reconstruct secs eq_refl) as [[_ [G _]] [_ [S _]]].
  split; [rewrite G|rewrite S]; reflexivity.
Defined.

(** C6.  Parsing is idempotent through reconstruction when every parsed
    section carries a label: writing the sections of a parse back, each
    label in brackets followed by its body, and parsing the result gives
    the same sections, for the strict and for the lenient parser. *)
Theorem reparse_labelled (s : str) :
  (Forall labelled (GUI_BASED.parse_lyrics_sections s) ->
   GUI_BASED.parse_lyrics_sections
     (render (GUI_BASED.parse_lyrics_sections s))
   = GUI_BASED.parse_lyrics_sections s) /\
  (Forall labelled (scrappingPpptx.parse_lyrics_sections s) ->
   scrappingPpptx.parse_lyrics_sections
     (render (scrappingPpptx.parse_lyrics_sections s))
   = scrappingPpptx.parse_lyrics_sections s).
Proof.
  pose proof (re_split_wf s) as W; split; intros HL.
  - rewrite (strict_parse_eq s) in *.
    destruct (re_split s) as [|p rest]; [destruct W|]; cbn [tl] in *.
    rewrite strict_parse_eq.
    pose proof (re_split_render (strict_pairs rest) []
                  (strict_settled rest p [] W eq_refl HL)) as R.
    cbn [app] in R; rewrite R; cbn [tl].
    apply strict_interleave, strict_normal.
  - unfold scrappingPpptx.parse_lyrics_sections in *.
    set (out := fst (scrappingPpptx.parse_loop ([], None) 0 (re_split s)))
      in *.
    pose proof (re_split_render out []
                  (lenient_settled (re_split s) None 0 [] W eq_refl eq_refl
                     I HL)) as R.
    cbn [app] in R; rewrite R.
    rewrite parse_loop_cons, (step_text [] None 0 [] eq_refl).
    unfold emitted, after_text; rewrite strip_nil; cbn [truthy app].
    apply lenient_interleave; [|exact HL|reflexivity].
    apply lenient_normal; [reflexivity|exact I].
Qed.

Lemma reparse_labelled_witness :
  GUI_BASED.parse_lyrics_sections
    (render (GUI_BASED.parse_lyrics_sections scenario_1))
  = GUI_BASED.parse_lyrics_sections scenario_1 /\
  scrappingPpptx.parse_lyrics_sections
    (render (scrappingPpptx.parse_lyrics_sections scenario_1))
  = scrappingPpptx.parse_lyrics_sections scenario_1.
Proof.
  destruct (reparse_labelled scenario_1) as [G S]; split.
  - apply G; repeat constructor; vm_compute; discriminate.
  - apply S; repeat constructor; vm_compute; discriminate.
Defined.

(** Without the condition on the labels the reconstruction does not parse
    back.  A blank label is trimmed to the empty one, and empty brackets
    are no marker: the strict parser loses the section of ["[ ]text"], and
    the lenient parser reads the brackets written before the leading text
    of the second scenario as part of that text. *)
Lemma reparse_unlabelled :
  GUI_BASED.parse_lyrics_sections (lit "[ ]text") = [(lit "", lit "text")] /\
  GUI_BASED.parse_lyrics_sections
    (render (GUI_BASED.parse_lyrics_sections (lit "[ ]text"))) = [] /\
  scrappingPpptx.parse_lyrics_sections
    (render (scrappingPpptx.parse_lyrics_sections scenario_2))
  = [(lit "", lit "[]Intro text"); (lit "Verse", lit "Body")] /\
  GUI_BASED.parse_lyrics_sections
    (render (GUI_BASED.parse_lyrics_sections (lit "[ ]text")))
  <> GUI_BASED.parse_lyrics_sections (lit "[ ]text") /\
  scrappingPpptx.parse_lyrics_sections
    (render (scrappingPpptx.parse_lyrics_sections scenario_2))
  <> scrappingPpptx.parse_lyrics_sections scenario_2.
Proof. repeat split; vm_compute; congruence. Qed.

End Reconstruction.

(** ** Consecutive labels in the lenient parser *)

Section ConsecutiveLabels.

(** C10.  In the lenient parser, when two labels follow each other with
    only whitespace in between and the second label is not blank, the first
    label yields no section: whatever the state before, after the second
    label the sections are unchanged and the pending label is the second
    one; a body that follows, when not blank, is filed under the second
    label alone.  In a whole document the sections are those of the parts
    before the first label, then that section, then those of the parts
    after the body. *)
Theorem second_label_wins :
  (forall st i l1 ws l2,
     Nat.odd i = true -> strip ws = [] -> strip l2 <> [] ->
     scrappingPpptx.parse_loop st i [l1; ws; l2] = (fst st, Some (strip l2))) /\
  (forall st i l1 ws l2 body,
     Nat.odd i = true -> strip ws = [] -> strip l2 <> [] ->
     strip body <> [] ->
     scrappingPpptx.parse_loop st i [l1; ws; l2; body] =
     (fst st ++ [(strip l2, strip body)], None)) /\
  (forall s before l1 ws l2 body after,
     re_split s = before ++ [l1; ws; l2; body] ++ after ->
     Nat.odd (length before) = true ->
     strip ws = [] -> strip l2 <> [] -> strip body <> [] ->
     scrappingPpptx.parse_lyrics_sections s =
     fst (scrappingPpptx.parse_loop ([], None) 0 before)
     ++ (strip l2, strip body)
        :: fst (scrappingPpptx.parse_loop ([], None) (length before + 4)
                  after)).
Proof.
  assert (A : forall st i l1 ws l2,
             Nat.odd i = true -> strip ws = [] -> strip l2 <> [] ->
             scrappingPpptx.parse_loop st i [l1; ws; l2] =
             (fst st, Some (strip l2))).
  { intros [secs cur] i l1 ws l2 Hi Hw Hl.
    rewrite !parse_loop_cons, parse_loop_nil.
    rewrite (step_label secs cur i l1 Hi).
    rewrite step_text by (rewrite odd_next, Hi; reflexivity).
    rewrite step_label by (rewrite !odd_next, Hi; reflexivity).
    unfold emitted, after_text; rewrite Hw; cbn [truthy].
    rewrite app_nil_r; unfold after_label.
    apply truthy_true in Hl; rewrite Hl; reflexivity. }
  assert (B : forall st i l1 ws l2 body,
             Nat.odd i = true -> strip ws = [] -> strip l2 <> [] ->
             strip body <> [] ->
             scrappingPpptx.parse_loop st i [l1; ws; l2; body] =
             (fst st ++ [(strip l2, strip body)], None)).
  { intros st i l1 ws l2 body Hi Hw Hl Hb.
    change [l1; ws; l2; body] with ([l1; ws; l2] ++ [body]).
    rewrite parse_loop_app, (A st i l1 ws l2 Hi Hw Hl).
    rewrite parse_loop_cons, parse_loop_nil.
    rewrite step_text
      by (cbn [length]; rewrite Nat.add_comm; cbn [Nat.add];
          rewrite !odd_next, Hi; reflexivity).
    unfold emitted, after_text; apply truthy_true in Hb; rewrite Hb.
    destruct (strip l2) as [|c n] eqn:E; [congruence|reflexivity]. }
  split; [exact A|split; [exact B|]].
  intros s before l1 ws l2 body after E Ho Hw Hl Hb.
  unfold scrappingPpptx.parse_lyrics_sections; rewrite E.
  rewrite !parse_loop_app; cbn [Nat.add length].
  rewrite (B _ (length before) l1 ws l2 body Ho Hw Hl Hb).
  rewrite parse_loop_acc; cbn [fst].
  rewrite <- app_assoc; reflexivity.
Qed.

Lemma second_label_wins_witness :
  let s := lit "[Intro]" ++ nl ++ lit "[Verse 1]" ++ nl ++ lit "Hello" in
  scrappingPpptx.parse_loop ([], None) 1 [lit "Intro"; nl; lit "Verse 1"] =
    ([], Some (lit "Verse 1")) /\
  scrappingPpptx.parse_lyrics_sections s = [(lit "Verse 1", lit "Hello")].
Proof.
  intros s; destruct second_label_wins as [A [_ C]]; split.
  - apply (A ([], None) 1 (lit "Intro") nl (lit "Verse 1"));
      [reflexivity|reflexivity|vm_compute; discriminate].
  - apply (C s [[]] (lit "Intro") nl (lit "Verse 1") (nl ++ lit "Hello") []);
      [vm_compute; reflexivity|reflexivity|reflexivity
      |vm_compute; discriminate|vm_compute; discriminate].
Defined.

(** When the second of two consecutive labels is blank it is skipped like
    the whitespace before it: the first label stays pending and the body is
    filed under it. *)
Lemma blank_second_label :
  re_split (lit "[a] [ ]Body") = [lit ""; lit "a"; lit " "; lit " "; lit "Body"]
  /\ strip (lit " ") = []
  /\ scrappingPpptx.parse_lyrics_sections (lit "[a] [ ]Body")
     = [(lit "a", lit "Body")].
Proof. repeat split; vm_compute; reflexivity. Qed.

End ConsecutiveLabels.

(** ** The batch driver *)

Section Batch.

Variable unicode_isalnum : char -> bool.
Variable os_path_join : str -> str -> str.
Variable search_genius_lyrics : str -> outcome (option LyricsDocument).
Variable create_lyrics_presentation :
  str -> list lyrics_section -> str -> outcome unit.

Local Abbreviation process_single_song :=
  (GUI_BASED.process_single_song unicode_isalnum os_path_join
     search_genius_lyrics create_lyrics_presentation).

Local Abbreviation process_loop :=
  (GUI_BASED.process_loop unicode_isalnum os_path_join
     search_genius_lyrics create_lyrics_presentation).

Lemma replace_char_in (a b c : char) (s : str) :
  In c (replace_char a b s) ->
  (c = b /\ In a s) \/ (c <> a /\ In c s).
Proof.
  unfold replace_char; rewrite in_map_iff; intros [c0 [E Hin]].
  destruct (c0 =? a)%N eqn:H.
  - apply N.eqb_eq in H; subst; left; split; [reflexivity|exact Hin].
  - apply N.eqb_neq in H; subst; right; split; assumption.
Qed.

Lemma strip_tight_ends (s : str) :
  tight_head (strip s) = true /\ tight_head (rev (strip s)) = true.
Proof.
  split.
  - apply rstrip_tight_head, lstrip_tight.
  - unfold strip, rstrip; rewrite rev_involutive; apply lstrip_tight.
Qed.

(** C8.  The file name derived from a query holds only alphanumeric
    characters, hyphens and underscores: it is what remains of the query's
    alphanumerics, spaces, hyphens and underscores after the whitespace
    around them is trimmed, with every space left replaced by an underscore.
    The query "Way Maker! (Live)" gives "Way_Maker_Live". *)
Theorem safe_filename_shape (song_query : str) :
  Forall (fun c => GUI_BASED.isalnum unicode_isalnum c = true
                   \/ c = hyphen \/ c = underscore)
    (GUI_BASED.safe_filename unicode_isalnum song_query) /\
  ~ In space (GUI_BASED.safe_filename unicode_isalnum song_query) /\
  (exists w1 kept w2,
     filter (GUI_BASED.keeps unicode_isalnum) song_query = w1 ++ kept ++ w2 /\
     blank w1 = true /\ blank w2 = true /\
     tight_head kept = true /\ tight_head (rev kept) = true /\
     GUI_BASED.safe_filename unicode_isalnum song_query =
     replace_char space underscore kept) /\
  GUI_BASED.safe_filename unicode_isalnum (lit "Way Maker! (Live)") =
  lit "Way_Maker_Live".
Proof.
  unfold GUI_BASED.safe_filename.
  set (kept := strip (filter (GUI_BASED.keeps unicode_isalnum) song_query)).
  assert (K : forall c, In c kept -> GUI_BASED.keeps unicode_isalnum c = true).
  { intros c Hc; apply strip_incl in Hc; apply filter_In in Hc; apply Hc. }
  split; [|split; [|split]].
  - apply Forall_forall; intros c Hc.
    apply replace_char_in in Hc; destruct Hc as [[-> _]|[Hne Hin]].
    + right; right; reflexivity.
    + specialize (K _ Hin); unfold GUI_BASED.keeps in K.
      apply orb_prop in K; destruct K as [K|K];
        [|right; right; apply N.eqb_eq, K].
      apply orb_prop in K; destruct K as [K|K];
        [|right; left; apply N.eqb_eq, K].
      apply orb_prop in K; destruct K as [K|K]; [left; exact K|].
      apply N.eqb_eq in K; contradiction.
  - intros Hc; apply replace_char_in in Hc.
    destruct Hc as [[E _]|[Hne _]]; [discriminate E|apply Hne; reflexivity].
  - destruct (strip_split (filter (GUI_BASED.keeps unicode_isalnum) song_query))
      as [w1 [w2 [E [B1 B2]]]].
    exists w1, kept, w2; repeat split; try assumption;
      apply (strip_tight_ends
               (filter (GUI_BASED.keeps unicode_isalnum) song_query)).
  - vm_compute; reflexivity.
Qed.

Lemma trace4 (tr : list event) (a b c d : event) :
  (((tr ++ [a]) ++ [b]) ++ [c]) ++ [d] = tr ++ [a; b; c; d].
Proof. rewrite <- !app_assoc; reflexivity. Qed.

(** With the log of the GUI a song is processed without raising, whatever
    the search and the builder do, and is searched once. *)
Lemma process_single_song_returns (song_query output_folder : str)
    (tr : list event) :
  exists ok tr',
    process_single_song song_query output_folder GUI_BASED.gui_log tr
    = (Returned ok, tr ++ tr') /\ searches tr' = [song_query].
Proof.
  unfold GUI_BASED.process_single_song, try_except, bind, GUI_BASED.log, call,
    ret, GUI_BASED.gui_log, GUI_BASED.type_error.
  destruct (search_genius_lyrics song_query) as [[d|]|e]; cbn.
  - destruct (lyrics d) as [l|] eqn:L; cbn.
    + destruct (truthy l); cbn.
      * destruct (create_lyrics_presentation _ _ _) as [[]|e]; cbn;
          eexists _, _; (split; [rewrite <- !app_assoc; reflexivity|]);
          reflexivity.
      * eexists _, _; (split; [rewrite <- !app_assoc; reflexivity|]);
          reflexivity.
    + eexists _, _; (split; [rewrite <- !app_assoc; reflexivity|]);
        reflexivity.
  - eexists _, _; (split; [rewrite <- !app_assoc; reflexivity|]);
      reflexivity.
  - eexists _, _; (split; [rewrite <- !app_assoc; reflexivity|]);
      reflexivity.
Qed.

Lemma searches_app (a b : list event) :
  searches (a ++ b) = searches a ++ searches b.
Proof. unfold searches; apply flat_map_app. Qed.

(** C9.  When the search returns nothing, or a document without lyrics,
    processing the song logs the failure, calls no builder, returns [False]
    and raises nothing, provided the log callback returns; and the loop of
    the batch runs to its end whatever the searches and the builder do:
    every query is searched, in order, and counted as success or failure. *)
Theorem absent_lyrics_fail :
  (forall song_query output_folder log_callback tr,
     (forall m, log_callback m = Returned tt) ->
     lyrics_absent (search_genius_lyrics song_query) ->
     process_single_song song_query output_folder log_callback tr =
     (Returned false,
      tr ++ [Logged MsgRule; Logged (MsgProcessing song_query);
             Searched song_query; Logged (MsgNoLyrics song_query)])) /\
  (forall songs output_folder success_count fail_count tr,
     exists success_count' fail_count' tr',
       process_loop songs output_folder success_count fail_count tr =
       (Returned (success_count', fail_count'), tr ++ tr') /\
       success_count' + fail_count' =
       success_count + fail_count + length songs /\
       searches tr' = songs).
Proof.
  split.
  - intros q folder lg tr Hlog Habs.
    unfold GUI_BASED.process_single_song, try_except, bind, GUI_BASED.log,
      call, ret.
    rewrite !Hlog.
    destruct Habs as [E|[d [E L]]]; rewrite E; cbn;
      [|rewrite L; cbn]; rewrite ?Hlog, trace4; reflexivity.
  - induction songs as [|q rest IH]; intros folder sc fc tr.
    + exists sc, fc, []; cbn; rewrite app_nil_r.
      repeat split; lia.
    + destruct (process_single_song_returns q folder tr)
        as [ok [tr1 [E1 S1]]].
      cbn [GUI_BASED.process_loop]; unfold bind at 1; rewrite E1.
      destruct ok.
      * destruct (IH folder (S sc) fc (tr ++ tr1))
          as [sc' [fc' [tr2 [E2 [C2 S2]]]]].
        exists sc', fc', (tr1 ++ tr2); rewrite E2, app_assoc.
        repeat split; [cbn [length]; lia|].
        rewrite searches_app, S1, S2; reflexivity.
      * destruct (IH folder sc (S fc) (tr ++ tr1))
          as [sc' [fc' [tr2 [E2 [C2 S2]]]]].
        exists sc', fc', (tr1 ++ tr2); rewrite E2, app_assoc.
        repeat split; [cbn [length]; lia|].
        rewrite searches_app, S1, S2; reflexivity.
Qed.

End Batch.

Lemma absent_lyrics_fail_witness :
  let search := fun _ : str =>
    Returned (Some {| url := lit "https://genius.com/x-lyrics";
                      title := lit "X by Y"; lyrics := None |}) in
  GUI_BASED.process_single_song (fun _ => false)
    (fun a b => a ++ lit "/" ++ b) search (fun _ _ _ => Returned tt)
    (lit "way maker") (lit "out") GUI_BASED.gui_log []
  = (Returned false,
     [Logged MsgRule; Logged (MsgProcessing (lit "way maker"));
      Searched (lit "way maker"); Logged (MsgNoLyrics (lit "way maker"))]).
Proof.
  intros search.
  apply (proj1 (absent_lyrics_fail (fun _ => false)
                  (fun a b => a ++ lit "/" ++ b) search
                  (fun _ _ _ => Returned tt))).
  - intros m; reflexivity.
  - right; eexists; split; reflexivity.
Defined.

(** ** Further properties of the two parsers *)

Section ParserFacts.

Lemma search_marker_no_open (s : str) :
  ~ In lbracket s -> search_marker s = None.
Proof. intros H; apply inert_search_none, inert_no_open, H. Qed.

(** X1.  The split loses nothing: it returns an odd number of parts, and
    writing them back, the captured groups in brackets, gives the text that
    was split. *)
Theorem re_split_unsplit (s : str) :
  unsplit (re_split s) = s /\ Nat.odd (length (re_split s)) = true.
Proof.
  remember (length s) as n eqn:Hn; revert s Hn.
  induction n as [n IH] using lt_wf_ind; intros s Hn.
  rewrite re_split_eq.
  destruct (search_marker s) as [[[pre g] t]|] eqn:S; [|split; reflexivity].
  destruct (search_marker_spec _ _ _ _ S) as [E _].
  pose proof (search_marker_length _ _ _ _ S) as Hlt.
  destruct (IH (length t) ltac:(lia) t eq_refl) as [U O].
  split.
  - cbn [unsplit]; rewrite U; symmetry; exact E.
  - cbn [length]; rewrite !odd_next, O; reflexivity.
Qed.

(** X2.  On a text in which the pattern finds no marker, as on every text
    without opening bracket and on the empty text, the strict parser returns
    no section, and the lenient parser returns the whole trimmed text as one
    section without label, or nothing when the text is blank. *)
Theorem no_marker (s : str) :
  search_marker s = None \/ ~ In lbracket s ->
  GUI_BASED.parse_lyrics_sections s = [] /\
  scrappingPpptx.parse_lyrics_sections s =
    (if truthy (strip s) then [([], strip s)] else []).
Proof.
  intros H.
  assert (S : search_marker s = None)
    by (destruct H as [H|H]; [exact H|apply search_marker_no_open, H]).
  split.
  - rewrite strict_parse_eq, re_split_eq, S; reflexivity.
  - unfold scrappingPpptx.parse_lyrics_sections.
    rewrite re_split_eq, S, (loop_text None 0 s eq_refl); reflexivity.
Qed.

Lemma no_marker_witness :
  GUI_BASED.parse_lyrics_sections (lit "la la [] la") = [] /\
  scrappingPpptx.parse_lyrics_sections (lit "la la [] la") =
    [([], lit "la la [] la")].
Proof. apply (no_marker (lit "la la [] la")); left; reflexivity. Defined.

(** X3.  The lenient parser returns the bodies of the strict parser,
    preceded by the trimmed text before the first marker when that is not
    blank. *)
Theorem lenient_bodies_extend_strict (s : str) :
  map snd (scrappingPpptx.parse_lyrics_sections s) =
  filter truthy [strip (hd [] (re_split s))]
  ++ map snd (GUI_BASED.parse_lyrics_sections s).
Proof.
  unfold scrappingPpptx.parse_lyrics_sections.
  rewrite (lenient_bodies (re_split s) None 0), strict_parse_eq, strict_bodies.
  pose proof (re_split_wf s) as W.
  destruct (re_split s) as [|p rest]; [destruct W|].
  cbn [Nat.odd Nat.even negb body_spans map filter hd tl].
  destruct (truthy (strip p)); reflexivity.
Qed.

Lemma strict_labels (rest : list str) :
  forall p,
    parts_wf (p :: rest) ->
    Forall (fun sec => ~ In rbracket (fst sec)) (strict_pairs rest).
Proof.
  induction rest as [|a|l p' rest IH] using pair_induction; intros p W;
    try apply Forall_nil.
  destruct W as [_ [L W]]; cbn [strict_pairs].
  apply Forall_app; split; [|apply (IH p'), W].
  destruct (truthy (strip p')); [|apply Forall_nil].
  apply Forall_cons; [|apply Forall_nil]; cbn [fst].
  unfold label_ok in L; apply andb_prop in L; destruct L as [_ F].
  rewrite forallb_forall in F; intros Hin; apply strip_incl in Hin.
  specialize (F _ Hin); rewrite N.eqb_refl in F; discriminate.
Qed.

Lemma label_ok_closed (n : str) : label_ok n = true -> ~ In rbracket n.
Proof.
  unfold label_ok; intros L; apply andb_prop in L; destruct L as [_ F].
  rewrite forallb_forall in F; intros Hin.
  specialize (F _ Hin); rewrite N.eqb_refl in F; discriminate.
Qed.

Lemma emitted_labels cur p :
  pending_ok cur -> Forall (fun sec => ~ In rbracket (fst sec)) (emitted cur p).
Proof.
  intros Hc; unfold emitted; destruct (truthy (strip p)); [|apply Forall_nil].
  apply Forall_cons; [|apply Forall_nil]; cbn [fst].
  destruct cur as [n|]; [apply label_ok_closed, Hc|intros []].
Qed.

Lemma lenient_labels (parts : list str) :
  forall cur i,
    parts_wf parts -> Nat.odd i = false -> pending_ok cur ->
    Forall (fun sec => ~ In rbracket (fst sec))
      (fst (scrappingPpptx.parse_loop ([], cur) i parts)).
Proof.
  induction parts as [|p|p l rest IH] using pair_induction;
    intros cur i W Hi Hc.
  - apply Forall_nil.
  - rewrite (loop_text cur i p Hi); apply emitted_labels, Hc.
  - destruct W as [_ [L W]].
    rewrite (loop_text_label cur i p l rest Hi); cbn [fst].
    apply Forall_app; split; [apply emitted_labels, Hc|].
    apply IH; [exact W|rewrite !odd_next, Hi; reflexivity|].
    apply after_label_ok, after_text_ok; assumption.
Qed.

(** X4.  The label of every section returned by either parser is trimmed
    and holds no closing bracket. *)
Theorem labels_trimmed_closed (s : str) :
  Forall (fun sec => strip (fst sec) = fst sec /\ ~ In rbracket (fst sec))
    (GUI_BASED.parse_lyrics_sections s) /\
  Forall (fun sec => strip (fst sec) = fst sec /\ ~ In rbracket (fst sec))
    (scrappingPpptx.parse_lyrics_sections s).
Proof.
  assert (J : forall secs : list lyrics_section,
            Forall normal secs ->
            Forall (fun sec => ~ In rbracket (fst sec)) secs ->
            Forall (fun sec => strip (fst sec) = fst sec
                               /\ ~ In rbracket (fst sec)) secs).
  { intros secs HN HC; rewrite Forall_forall in *; intros sec Hin.
    split; [apply (HN sec Hin)|apply (HC sec Hin)]. }
  pose proof (re_split_wf s) as W; split; apply J.
  - rewrite strict_parse_eq; apply strict_normal.
  - rewrite strict_parse_eq.
    destruct (re_split s) as [|p rest]; [destruct W|].
    exact (strict_labels rest p W).
  - apply lenient_normal; [reflexivity|exact I].
  - apply lenient_labels; [exact W|reflexivity|exact I].
Qed.

Lemma lenient_all_labelled (rest : list str) :
  forall cur i,
    Nat.odd i = true ->
    Forall (fun l => strip l <> []) (body_spans true rest) ->
    fst (scrappingPpptx.parse_loop ([], cur) i rest) = strict_pairs rest.
Proof.
  induction rest as [|a|l p rest IH] using pair_induction; intros cur i Hi HL.
  - reflexivity.
  - rewrite parse_loop_cons, parse_loop_nil, (step_label [] cur i a Hi).
    reflexivity.
  - cbn [body_spans] in HL; apply Forall_cons_iff in HL.
    destruct HL as [Hl HL]; apply truthy_true in Hl.
    rewrite !parse_loop_cons, (step_label [] cur i l Hi).
    rewrite step_text by (rewrite odd_next, Hi; reflexivity).
    rewrite parse_loop_acc; cbn [fst strict_pairs].
    rewrite IH; [|rewrite !odd_next, Hi; reflexivity|exact HL].
    unfold emitted, after_label; rewrite Hl; reflexivity.
Qed.

(** X5.  The two parsers agree on a document whose text before the first
    marker is blank and none of whose labels is blank. *)
Theorem parsers_agree (s : str) :
  strip (hd [] (re_split s)) = [] ->
  Forall (fun l => strip l <> []) (body_spans false (re_split s)) ->
  scrappingPpptx.parse_lyrics_sections s = GUI_BASED.parse_lyrics_sections s.
Proof.
  intros H0 HL; unfold scrappingPpptx.parse_lyrics_sections.
  rewrite strict_parse_eq.
  destruct (re_split s) as [|p rest]; [reflexivity|].
  cbn [hd tl body_spans] in *.
  rewrite parse_loop_cons, (step_text [] None 0 p eq_refl).
  unfold emitted, after_text; rewrite H0; cbn [truthy app].
  apply lenient_all_labelled; [reflexivity|exact HL].
Qed.

Lemma parsers_agree_witness :
  scrappingPpptx.parse_lyrics_sections scenario_1 =
  GUI_BASED.parse_lyrics_sections scenario_1.
Proof.
  apply parsers_agree; [reflexivity|].
  repeat constructor; vm_compute; discriminate.
Defined.

End ParserFacts.

(** ** Cleaning, addresses and the list of queries *)

Section TextFacts.

Lemma strip_keeps (s : str) (c : char) :
  isspace c = false -> In c s -> In c (strip s).
Proof.
  intros Hc Hin; destruct (strip_split s) as [w1 [w2 [E [B1 B2]]]].
  rewrite E in Hin; apply in_app_or in Hin; destruct Hin as [H|H].
  - exfalso; exact (blank_not_in _ _ B1 Hc H).
  - apply in_app_or in H; destruct H as [H|H]; [exact H|].
    exfalso; exact (blank_not_in _ _ B2 Hc H).
Qed.

Lemma filter_all {A} (f : A -> bool) (l : list A) :
  (forall x, In x l -> f x = true) -> filter f l = l.
Proof.
  induction l as [|x l IH]; intros H; [reflexivity|].
  simpl; rewrite (H x (or_introl eq_refl)), IH; [reflexivity|].
  intros y Hy; apply H; right; exact Hy.
Qed.

Lemma clean_text_ascii (text : str) (c : char) :
  In c (GUI_BASED.clean_text text) -> (c < 128)%N.
Proof.
  unfold GUI_BASED.clean_text, ascii_only; intros H.
  apply strip_incl, filter_In in H; apply N.ltb_lt, H.
Qed.

(** X6.  [clean_text] returns ASCII characters only, trimmed; cleaning a
    cleaned text changes nothing, and a text that is ASCII already is only
    trimmed. *)
Theorem clean_text_normalises (text : str) :
  Forall (fun c => (c < 128)%N) (GUI_BASED.clean_text text) /\
  strip (GUI_BASED.clean_text text) = GUI_BASED.clean_text text /\
  GUI_BASED.clean_text (GUI_BASED.clean_text text) = GUI_BASED.clean_text text
  /\ (Forall (fun c => (c < 128)%N) text ->
      GUI_BASED.clean_text text = strip text).
Proof.
  split; [apply Forall_forall; intros c; apply clean_text_ascii|].
  split; [apply strip_idempotent|].
  split.
  - unfold GUI_BASED.clean_text at 1; unfold ascii_only.
    rewrite filter_all; [apply strip_idempotent|].
    intros c Hc; apply N.ltb_lt, (clean_text_ascii text), Hc.
  - intros H; unfold GUI_BASED.clean_text, ascii_only.
    rewrite filter_all; [reflexivity|].
    rewrite Forall_forall in H; intros c Hc; apply N.ltb_lt, H, Hc.
Qed.

Lemma clean_text_normalises_witness :
  GUI_BASED.clean_text (lit " Way Maker ") = strip (lit " Way Maker ").
Proof.
  apply (clean_text_normalises (lit " Way Maker ")).
  repeat constructor.
Defined.

Lemma replace_with_in (a : char) (new s : str) (c : char) :
  In c (replace_with a new s) -> In c new \/ (c <> a /\ In c s).
Proof.
  unfold replace_with; rewrite in_flat_map; intros [x [Hx Hc]].
  destruct (x =? a)%N eqn:E; [left; exact Hc|].
  destruct Hc as [<-|[]]; right; split; [apply N.eqb_neq, E|exact Hx].
Qed.

Lemma replace_with_absent (a : char) (new s : str) :
  ~ In a s -> replace_with a new s = s.
Proof.
  unfold replace_with; induction s as [|c s IH]; intros H; [reflexivity|].
  simpl; destruct (c =? a)%N eqn:E.
  - apply N.eqb_eq in E; exfalso; apply H; left; exact E.
  - simpl; rewrite IH; [reflexivity|intros Hs; apply H; right; exact Hs].
Qed.



Lemma split_on_nonempty (sep : char) (s : str) : split_on sep s <> [].
Proof.
  destruct s as [|c r]; simpl; [discriminate|].
  destruct (c =? sep)%N; [discriminate|].
  destruct (split_on sep r); discriminate.
Qed.

Lemma split_on_no_sep (sep : char) (s : str) :
  Forall (fun p => ~ In sep p) (split_on sep s).
Proof.
  induction s as [|c r IH]; simpl.
  - apply Forall_cons; [intros []|apply Forall_nil].
  - destruct (c =? sep)%N eqn:E.
    + apply Forall_cons; [intros []|exact IH].
    + destruct (split_on sep r) as [|p ps]; apply Forall_cons;
        try apply Forall_nil.
      * intros [H|[]]; apply N.eqb_neq in E; congruence.
      * apply Forall_inv in IH; intros [H|H]; [|exact (IH H)].
        apply N.eqb_neq in E; congruence.
      * apply Forall_inv_tail in IH; exact IH.
Qed.

Lemma split_on_in (sep : char) (s : str) (c : char) :
  In c s -> c <> sep -> exists p, In p (split_on sep s) /\ In c p.
Proof.
  induction s as [|x r IH]; intros Hin Hne; [destruct Hin|].
  simpl; destruct (x =? sep)%N eqn:E.
  - destruct Hin as [->|Hin]; [apply N.eqb_eq in E; congruence|].
    destruct (IH Hin Hne) as [p [Hp Hc]]; exists p; split;
      [right; exact Hp|exact Hc].
  - pose proof (split_on_nonempty sep r) as NE.
    destruct (split_on sep r) as [|p ps]; [congruence|].
    destruct Hin as [->|Hin].
    + exists (c :: p); split; left; reflexivity.
    + destruct (IH Hin Hne) as [q [[<-|Hq] Hc]].
      * exists (x :: p); split; [left; reflexivity|right; exact Hc].
      * exists q; split; [right; exact Hq|exact Hc].
Qed.

(** X8.  [start_processing] hands nothing on when the text area is blank.
    Otherwise the list of queries is not empty, every query is a trimmed,
    non-empty line of the text area, without newline, and the output folder
    is never empty: a blank entry gives "lyrics_presentations". *)
Theorem start_processing_queries (text_area folder_entry : str) :
  (strip text_area = [] ->
   GUI_BASED.start_processing text_area folder_entry = None) /\
  (strip text_area <> [] ->
   exists songs output_folder,
     GUI_BASED.start_processing text_area folder_entry =
       Some (songs, output_folder) /\
     songs <> [] /\
     Forall (fun q => q <> [] /\ strip q = q /\ ~ In 10%N q /\
                      exists line, In line (split_on 10%N (strip text_area))
                                   /\ q = strip line) songs /\
     output_folder <> [] /\
     (strip folder_entry = [] -> output_folder = lit "lyrics_presentations") /\
     (strip folder_entry <> [] -> output_folder = strip folder_entry)).
Proof.
  unfold GUI_BASED.start_processing; split; intros H.
  - rewrite H; reflexivity.
  - pose proof H as T; apply truthy_true in T; rewrite T; cbn [negb].
    eexists _, _; split; [reflexivity|].
    split; [|split; [|split; [|split]]].
    + (* the first character of the trimmed text is no whitespace: its line
         is a query *)
      destruct (strip text_area) as [|c r] eqn:E; [congruence|].
      assert (Hc : isspace c = false).
      { pose proof (proj1 (strip_tight_ends text_area)) as TH.
        rewrite E in TH; simpl in TH; apply negb_true_iff, TH. }
      destruct (split_on_in 10%N (c :: r) c (or_introl eq_refl))
        as [p [Hp Hin]].
      { intros ->; discriminate Hc. }
      intros Hnil; apply map_eq_nil in Hnil.
      assert (Hf : In p (filter (fun line => truthy (strip line))
                           (split_on 10%N (c :: r)))).
      { apply filter_In; split; [exact Hp|].
        apply truthy_true; intros Hs.
        pose proof (strip_keeps p c Hc Hin) as K; rewrite Hs in K; exact K. }
      rewrite Hnil in Hf; exact Hf.
    + apply Forall_forall; intros q Hq; apply in_map_iff in Hq.
      destruct Hq as [line [<- Hl]]; apply filter_In in Hl.
      destruct Hl as [Hl Ht]; apply truthy_true in Ht.
      split; [exact Ht|split; [apply strip_idempotent|split]].
      * pose proof (split_on_no_sep 10%N (strip text_area)) as F.
        rewrite Forall_forall in F; intros Hin.
        exact (F line Hl (strip_incl _ _ Hin)).
      * exists line; split; [exact Hl|reflexivity].
    + destruct (strip folder_entry); simpl; discriminate.
    + intros ->; reflexivity.
    + intros Hf; apply truthy_true in Hf; rewrite Hf; reflexivity.
Qed.

Lemma start_processing_queries_witness :
  GUI_BASED.start_processing (lit "   ") (lit "out") = None /\
  GUI_BASED.start_processing (lit " a " ++ nl ++ nl ++ lit "b c" ++ nl)
    (lit " ") = Some ([lit "a"; lit "b c"], lit "lyrics_presentations").
Proof.
  split.
  - apply (start_processing_queries (lit "   ") (lit "out")); reflexivity.
  - destruct (proj2 (start_processing_queries
                       (lit " a " ++ nl ++ nl ++ lit "b c" ++ nl) (lit " ")))
      as [songs [out [E _]]]; [vm_compute; discriminate|].
    rewrite E; vm_compute in E; symmetry; exact E.
Defined.

End TextFacts.

(** ** The presentations *)

Section Decks.

Local Open Scope Z_scope.

Ltac sizes :=
  repeat match goal with
         | |- context [?a <? ?b] => destruct (Z.ltb_spec a b)
         end; try lia.

Lemma gui_size_range (n : Z) :
  20 <= GUI_BASED.calculate_font_size n <= 48.
Proof. unfold GUI_BASED.calculate_font_size; sizes. Qed.

Lemma cli_size_range (n : Z) :
  20 <= scrappingPpptx.calculate_font_size n <= 44.
Proof. unfold scrappingPpptx.calculate_font_size; sizes. Qed.

Lemma gui_size_mono (a b : Z) :
  a <= b ->
  GUI_BASED.calculate_font_size b <= GUI_BASED.calculate_font_size a.
Proof. intros H; unfold GUI_BASED.calculate_font_size; sizes. Qed.

Lemma cli_size_mono (a b : Z) :
  a <= b ->
  scrappingPpptx.calculate_font_size b <= scrappingPpptx.calculate_font_size a.
Proof. intros H; unfold scrappingPpptx.calculate_font_size; sizes. Qed.

Lemma gui_body_boxes (song_title : str) (sections : list lyrics_section) :
  body_boxes (GUI_BASED.create_lyrics_presentation song_title sections) =
  flat_map (fun sec => slide_shapes (GUI_BASED.section_slide sec)) sections.
Proof.
  unfold body_boxes; cbn [GUI_BASED.create_lyrics_presentation slides tl].
  induction sections as [|[n t] rest IH]; [reflexivity|].
  cbn [map flat_map]; rewrite IH; reflexivity.
Qed.

Lemma cli_body_boxes (song_title : str) (sections : list lyrics_section) :
  body_boxes (scrappingPpptx.create_lyrics_presentation song_title sections) =
  map (fun sec =>
         last (slide_shapes (scrappingPpptx.section_slide sec))
           (hd (Build_TextBox 0 0 0 0 false [] AllParagraphs CENTER 0 false
                  (RGB 0 0 0))
               (slide_shapes (scrappingPpptx.section_slide sec))))
      sections.
Proof.
  unfold body_boxes;
    cbn [scrappingPpptx.create_lyrics_presentation slides tl].
  induction sections as [|[n t] rest IH]; [reflexivity|].
  cbn [map flat_map]; rewrite IH.
  unfold scrappingPpptx.section_slide, scrappingPpptx.name_box.
  destruct (truthy n); reflexivity.
Qed.

(** X9.  In both presentations every text box lies within the 10 by 7.5
    inch slide, with equal margins left and right; on the slides of the
    command-line script the box of the section name ends above the box of
    the lyrics. *)
Theorem boxes_within_slide (song_title : str)
    (sections : list lyrics_section) :
  Forall (fits (GUI_BASED.create_lyrics_presentation song_title sections))
    (all_boxes (GUI_BASED.create_lyrics_presentation song_title sections)) /\
  Forall (fits (scrappingPpptx.create_lyrics_presentation song_title sections))
    (all_boxes
       (scrappingPpptx.create_lyrics_presentation song_title sections)) /\
  Forall (fun sl => stacked (slide_shapes sl))
    (slides (scrappingPpptx.create_lyrics_presentation song_title sections)).
Proof.
  unfold all_boxes, fits; cbn [GUI_BASED.create_lyrics_presentation
    scrappingPpptx.create_lyrics_presentation slides slide_width slide_height
    flat_map].
  split; [|split].
  - apply Forall_app; split.
    + repeat constructor; vm_compute; congruence.
    + induction sections as [|[n t] rest IH]; [apply Forall_nil|].
      cbn [map flat_map]; apply Forall_app; split; [|exact IH].
      repeat constructor; vm_compute; congruence.
  - apply Forall_app; split.
    + repeat constructor; vm_compute; congruence.
    + induction sections as [|[n t] rest IH]; [apply Forall_nil|].
      cbn [map flat_map]; apply Forall_app; split; [|exact IH].
      unfold scrappingPpptx.section_slide, scrappingPpptx.name_box.
      destruct (truthy n); repeat constructor; vm_compute; congruence.
  - apply Forall_cons; [repeat constructor|].
    induction sections as [|[n t] rest IH]; [apply Forall_nil|].
    cbn [map]; apply Forall_cons; [|exact IH].
    unfold scrappingPpptx.section_slide, scrappingPpptx.name_box.
    destruct (truthy n); repeat constructor; vm_compute; congruence.
Qed.



(** X11.  The presentation of the GUI script does not show the section
    names: it is the same whatever the names are, and every slide after the
    title holds one box, the text of its section. *)
Theorem gui_names_not_shown (song_title : str)
    (sections : list lyrics_section) :
  GUI_BASED.create_lyrics_presentation song_title sections =
  GUI_BASED.create_lyrics_presentation song_title
    (map (fun sec => ([], snd sec)) sections) /\
  map (fun sl => map box_text (slide_shapes sl))
    (tl (slides (GUI_BASED.create_lyrics_presentation song_title sections)))
  = map (fun sec => [snd sec]) sections.
Proof.
  unfold GUI_BASED.create_lyrics_presentation; cbn [slides tl].
  rewrite !map_map; split.
  - f_equal; f_equal; apply map_ext; intros [n t]; reflexivity.
  - apply map_ext; intros [n t]; reflexivity.
Qed.

End Decks.

(** ** The searches *)

Section Searches.

Lemma gui_first_song_skip (before : list ResultSection) :
  Forall (fun section => usable section = false) before ->
  forall rest (found : option (str * str)),
    (forall u t, found = Some (u, t) -> u = []) ->
    exists found',
      GUI_BASED.first_song (before ++ rest) found =
      GUI_BASED.first_song rest found' /\
      (forall u t, found' = Some (u, t) -> u = []).
Proof.
  induction before as [|s before IH]; intros HB rest found Hf.
  - exists found; split; [reflexivity|exact Hf].
  - apply Forall_cons_iff in HB; destruct HB as [Hs HB].
    cbn [app GUI_BASED.first_song]; unfold usable in Hs.
    destruct (str_eqb (section_type s) (lit "song")); [|apply IH; assumption].
    cbn [andb] in Hs.
    destruct (section_hits s) as [|hit hits].
    + destruct found as [[u t]|]; [|apply IH; assumption].
      rewrite (Hf u t eq_refl); cbn [truthy]; apply IH; [exact HB|].
      intros u' t' [= <- <-]; reflexivity.
    + rewrite Hs; apply IH; [exact HB|].
      intros u' t' [= <- <-]; destruct (result_url hit); [reflexivity|].
      discriminate Hs.
Qed.

Lemma cli_first_song_skip (before : list ResultSection) :
  Forall (fun section => usable section = false) before ->
  forall rest (found : option (str * str)),
    (forall u t, found = Some (u, t) -> u = []) ->
    exists found',
      scrappingPpptx.first_song (before ++ rest) found =
      scrappingPpptx.first_song rest found' /\
      (forall u t, found' = Some (u, t) -> u = []).
Proof.
  induction before as [|s before IH]; intros HB rest found Hf.
  - exists found; split; [reflexivity|exact Hf].
  - apply Forall_cons_iff in HB; destruct HB as [Hs HB].
    cbn [app scrappingPpptx.first_song]; unfold usable in Hs.
    destruct (str_eqb (section_type s) (lit "song")); [|apply IH; assumption].
    cbn [andb] in Hs.
    destruct (section_hits s) as [|hit hits].
    + destruct found as [[u t]|]; [|apply IH; assumption].
      rewrite (Hf u t eq_refl); cbn [truthy]; apply IH; [exact HB|].
      intros u' t' [= <- <-]; reflexivity.
    + rewrite Hs; apply IH; [exact HB|].
      intros u' t' [= <- <-]; destruct (result_url hit); [reflexivity|].
      discriminate Hs.
Qed.

(** X12.  The search loop settles on the first hit of the first section of
    type song whose first hit has a non-empty URL: later hits of a section
    and sections of other types are never read.  The GUI script makes the
    title of that hit's cleaned title and artist, the command-line script
    takes its full title.  When no section qualifies no non-empty URL is
    found. *)
Theorem first_song_choice :
  (forall before section hit hits after,
     Forall (fun s => usable s = false) before ->
     usable section = true ->
     section_hits section = hit :: hits ->
     GUI_BASED.first_song (before ++ section :: after) None =
       Some (result_url hit, GUI_BASED.song_title_of hit) /\
     scrappingPpptx.first_song (before ++ section :: after) None =
       Some (result_url hit, result_full_title hit)) /\
  (forall sections,
     Forall (fun s => usable s = false) sections ->
     (forall u t, GUI_BASED.first_song sections None = Some (u, t) -> u = [])
     /\
     (forall u t,
        scrappingPpptx.first_song sections None = Some (u, t) -> u = [])).
Proof.
  split.
  - intros before section hit hits after HB Hu Hh.
    unfold usable in Hu; apply andb_prop in Hu; destruct Hu as [Hs Ht].
    rewrite Hh in Ht.
    destruct (gui_first_song_skip before HB (section :: after) None
                ltac:(discriminate)) as [g [Eg _]].
    destruct (cli_first_song_skip before HB (section :: after) None
                ltac:(discriminate)) as [c [Ec _]].
    rewrite Eg, Ec; cbn [GUI_BASED.first_song scrappingPpptx.first_song].
    rewrite Hs, Hh, Ht; split; reflexivity.
  - intros sections HB; split; intros u t E.
    + destruct (gui_first_song_skip sections HB [] None ltac:(discriminate))
        as [g [Eg Hg]].
      rewrite app_nil_r, E in Eg; cbn in Eg; exact (Hg u t (eq_sym Eg)).
    + destruct (cli_first_song_skip sections HB [] None ltac:(discriminate))
        as [c [Ec Hc]].
      rewrite app_nil_r, E in Ec; cbn in Ec; exact (Hc u t (eq_sym Ec)).
Qed.

Lemma first_song_choice_witness :
  let hit := {| result_url := lit "https://genius.com/x-lyrics";
                result_title := lit "X"; result_full_title := lit "X by Y";
                primary_artist_name := lit "Y" |} in
  let sections :=
    [{| section_type := lit "top_hit"; section_hits := [hit] |};
     {| section_type := lit "song"; section_hits := [] |};
     {| section_type := lit "song"; section_hits := [hit; hit] |}] in
  GUI_BASED.first_song sections None =
    Some (lit "https://genius.com/x-lyrics", lit "X by Y") /\
  scrappingPpptx.first_song sections None =
    Some (lit "https://genius.com/x-lyrics", lit "X by Y").
Proof.
  intros hit sections.
  apply (proj1 first_song_choice
           [{| section_type := lit "top_hit"; section_hits := [hit] |};
            {| section_type := lit "song"; section_hits := [] |}]
           {| section_type := lit "song"; section_hits := [hit; hit] |}
           hit [hit] []).
  - repeat constructor.
  - reflexivity.
  - reflexivity.
Defined.

End Searches.

Section SearchOutcomes.

Variable is_request_exception : exn -> bool.
Variable requests_get_sections : str -> outcome (list ResultSection).
Variable requests_get_links : str -> outcome (list str).
Variable requests_get_page : str -> outcome LyricsPage.
Variable quote : str -> str.

Local Abbreviation gui_search :=
  (GUI_BASED.search_genius_lyrics is_request_exception requests_get_sections
     requests_get_page).

Local Abbreviation cli_search :=
  (scrappingPpptx.search_genius_lyrics is_request_exception
     requests_get_sections requests_get_page).

Local Abbreviation page_search :=
  (scrapTheSong.search_genius_lyrics is_request_exception quote
     requests_get_links requests_get_page).

Lemma gui_first_song_origin (sections : list ResultSection) :
  forall found u t,
    GUI_BASED.first_song sections found = Some (u, t) ->
    found = Some (u, t) \/
    exists section hit hits,
      In section sections /\
      str_eqb (section_type section) (lit "song") = true /\
      section_hits section = hit :: hits /\
      u = result_url hit /\ t = GUI_BASED.song_title_of hit.
Proof.
  induction sections as [|s rest IH]; intros found u t E; [left; exact E|].
  cbn [GUI_BASED.first_song] in E.
  assert (K : forall found',
            GUI_BASED.first_song rest found' = Some (u, t) ->
            found' = Some (u, t) \/
            exists section hit hits,
              In section (s :: rest) /\
              str_eqb (section_type section) (lit "song") = true /\
              section_hits section = hit :: hits /\
              u = result_url hit /\ t = GUI_BASED.song_title_of hit).
  { intros found' E'; destruct (IH _ _ _ E') as [H|[x [h [hs [Hin H]]]]];
      [left; exact H|].
    right; exists x, h, hs; split; [right; exact Hin|exact H]. }
  destruct (str_eqb (section_type s) (lit "song")) eqn:Hs; [|apply K, E].
  destruct (section_hits s) as [|hit hits] eqn:Hh.
  - destruct found as [[u0 t0]|]; [|apply K, E].
    destruct (truthy u0); [left; exact E|apply K, E].
  - assert (Here : Some (result_url hit, GUI_BASED.song_title_of hit)
                   = Some (u, t) ->
                   exists section hit0 hits0,
                     In section (s :: rest) /\
                     str_eqb (section_type section) (lit "song") = true /\
                     section_hits section = hit0 :: hits0 /\
                     u = result_url hit0 /\
                     t = GUI_BASED.song_title_of hit0).
    { intros [= <- <-]; exists s, hit, hits.
      repeat split; [left; reflexivity|exact Hs|exact Hh]. }
    destruct (truthy (result_url hit)); [right; apply Here, E|].
    destruct (K _ E) as [H|H]; right; [apply Here, H|exact H].
Qed.

Lemma song_title_ascii (hit : Hit) :
  Forall (fun c => (c < 128)%N) (GUI_BASED.song_title_of hit).
Proof.
  unfold GUI_BASED.song_title_of; apply Forall_app; split;
    [|apply Forall_app; split].
  - apply Forall_forall; intros c; apply clean_text_ascii.
  - repeat constructor.
  - apply Forall_forall; intros c; apply clean_text_ascii.
Qed.

(** X13.  A document returned by the search of the GUI script has a URL
    that is not empty, taken with the title from the first hit of a section
    of type song of the response; the title is ASCII; the lyrics are absent
    exactly when neither selector finds a container on the page of that
    URL, and otherwise are the texts of the chosen containers joined by an
    empty line and trimmed. *)
Theorem gui_search_document (song_query : str) (d : LyricsDocument) :
  gui_search song_query = Returned (Some d) ->
  url d <> [] /\
  Forall (fun c => (c < 128)%N) (title d) /\
  (exists sections section hit hits,
     requests_get_sections (GUI_BASED.search_url song_query)
       = Returned sections /\
     In section sections /\
     str_eqb (section_type section) (lit "song") = true /\
     section_hits section = hit :: hits /\
     url d = result_url hit /\ title d = GUI_BASED.song_title_of hit) /\
  (exists page,
     requests_get_page (url d) = Returned page /\
     lyrics d =
       (if truthy (chosen_containers page)
        then Some (strip (join (nl ++ nl) (chosen_containers page)))
        else None)) /\
  (forall l, lyrics d = Some l -> strip l = l).
Proof.
  unfold GUI_BASED.search_genius_lyrics.
  destruct (requests_get_sections (GUI_BASED.search_url song_query))
    as [sections|e] eqn:ES;
    [|destruct (is_request_exception e); discriminate].
  destruct (GUI_BASED.first_song sections None) as [[u t]|] eqn:EF;
    [|discriminate].
  destruct (truthy u) eqn:Tu; cbn [negb]; [|discriminate].
  destruct (requests_get_page u) as [page|e] eqn:EP;
    [|destruct (is_request_exception e); discriminate].
  fold (chosen_containers page).
  destruct (gui_first_song_origin sections None u t EF)
    as [H|[section [hit [hits [Hin [Hs [Hh [-> ->]]]]]]]]; [discriminate|].
  destruct (truthy (chosen_containers page)) eqn:TC; cbn [negb];
    intros [= <-]; cbn [url title lyrics].
  - split; [apply truthy_true, Tu|].
    split; [apply song_title_ascii|].
    split; [exists sections, section, hit, hits; repeat split; assumption|].
    split; [exists page; split; [exact EP|rewrite TC; reflexivity]|].
    intros l [= <-]; apply strip_idempotent.
  - split; [apply truthy_true, Tu|].
    split; [apply song_title_ascii|].
    split; [exists sections, section, hit, hits; repeat split; assumption|].
    split; [exists page; split; [exact EP|rewrite TC; reflexivity]|].
    intros l; discriminate.
Qed.

(** X14.  No search lets a [RequestException] escape: whatever the
    requests do, each of the three searches returns, or raises an exception
    that is no [RequestException]; when the search request itself raises a
    [RequestException] the search returns [None]. *)
Theorem request_failures_contained (song_query : str) :
  (forall e,
     gui_search song_query = Raised e \/ cli_search song_query = Raised e
     \/ page_search song_query = Raised e ->
     is_request_exception e = false) /\
  (forall e,
     is_request_exception e = true ->
     (requests_get_sections (GUI_BASED.search_url song_query) = Raised e ->
      gui_search song_query = Returned None) /\
     (requests_get_sections (scrappingPpptx.search_url song_query) = Raised e
      -> cli_search song_query = Returned None) /\
     (requests_get_links
        (lit "https://genius.com/search?q=" ++ quote song_query) = Raised e ->
      page_search song_query = Returned None)).
Proof.
  split.
  - intros e [H|[H|H]]; revert H;
      unfold GUI_BASED.search_genius_lyrics,
        scrappingPpptx.search_genius_lyrics,
        scrapTheSong.search_genius_lyrics.
    + destruct (requests_get_sections _) as [sections|e1];
        [|destruct (is_request_exception e1) eqn:R;
          [discriminate|intros [= <-]; exact R]].
      destruct (GUI_BASED.first_song sections None) as [[u t]|];
        [|discriminate].
      destruct (truthy u); cbn [negb]; [|discriminate].
      destruct (requests_get_page u) as [page|e1];
        [|destruct (is_request_exception e1) eqn:R;
          [discriminate|intros [= <-]; exact R]].
      destruct (negb _); discriminate.
    + destruct (requests_get_sections _) as [sections|e1];
        [|destruct (is_request_exception e1) eqn:R;
          [discriminate|intros [= <-]; exact R]].
      destruct (scrappingPpptx.first_song sections None) as [[u t]|];
        [|discriminate].
      destruct (truthy u); cbn [negb]; [|discriminate].
      destruct (requests_get_page u) as [page|e1];
        [|destruct (is_request_exception e1) eqn:R;
          [discriminate|intros [= <-]; exact R]].
      destruct (negb _); discriminate.
    + destruct (requests_get_links _) as [hrefs|e1];
        [|destruct (is_request_exception e1) eqn:R;
          [discriminate|intros [= <-]; exact R]].
      destruct (scrapTheSong.first_lyrics_link hrefs) as [u|];
        [|discriminate].
      destruct (truthy u); cbn [negb]; [|discriminate].
      destruct (requests_get_page u) as [page|e1];
        [|destruct (is_request_exception e1) eqn:R;
          [discriminate|intros [= <-]; exact R]].
      destruct (negb _); discriminate.
  - intros e R; repeat split; intros H;
      unfold GUI_BASED.search_genius_lyrics,
        scrappingPpptx.search_genius_lyrics,
        scrapTheSong.search_genius_lyrics; rewrite H, R; reflexivity.
Qed.

Lemma startswith_spec (s prefix : str) :
  startswith s prefix = true -> exists r, s = prefix ++ r.
Proof.
  revert s; induction prefix as [|p ps IH]; intros s H.
  - exists s; reflexivity.
  - destruct s as [|c r]; [discriminate|]; simpl in H.
    apply andb_prop in H; destruct H as [Hc Hr].
    apply N.eqb_eq in Hc; subst c.
    destruct (IH r Hr) as [r' ->]; exists r'; reflexivity.
Qed.

Lemma endswith_spec (s suffix : str) :
  endswith s suffix = true -> exists r, s = r ++ suffix.
Proof.
  unfold endswith; intros H; apply startswith_spec in H.
  destruct H as [r E]; exists (rev r).
  rewrite <- (rev_involutive s), E, rev_app_distr, rev_involutive.
  reflexivity.
Qed.

Lemma first_lyrics_link_spec (hrefs : list str) (u : str) :
  scrapTheSong.first_lyrics_link hrefs = Some u ->
  exists before after,
    hrefs = before ++ u :: after /\
    Forall (fun h => scrapTheSong.is_lyrics_link h = false) before /\
    scrapTheSong.is_lyrics_link u = true.
Proof.
  induction hrefs as [|h rest IH]; [discriminate|].
  cbn [scrapTheSong.first_lyrics_link].
  destruct (scrapTheSong.is_lyrics_link h) eqn:L.
  - intros [= <-]; exists [], rest; repeat split; [apply Forall_nil|exact L].
  - intros E; destruct (IH E) as [before [after [-> [F Lu]]]].
    exists (h :: before), after; repeat split;
      [apply Forall_cons; assumption|exact Lu].
Qed.

(** X15.  A document returned by the search of [scrapTheSong.py] has the
    URL of the first link of the search page that begins with
    [https://genius.com/] and ends with [-lyrics]; only such a page is ever
    requested for lyrics.  Its title is the text of the title tag, or
    "Unknown" when the page has none, and its lyrics are absent exactly
    when neither selector finds a container. *)
Theorem page_search_document (song_query : str) (d : LyricsDocument) :
  page_search song_query = Returned (Some d) ->
  (exists slug, url d = lit "https://genius.com/" ++ slug) /\
  (exists stem, url d = stem ++ lit "-lyrics") /\
  (exists before after,
     requests_get_links (lit "https://genius.com/search?q=" ++ quote song_query)
       = Returned (before ++ url d :: after) /\
     Forall (fun h => scrapTheSong.is_lyrics_link h = false) before) /\
  (exists page,
     requests_get_page (url d) = Returned page /\
     title d = match title_tag page with
               | Some text => text
               | None => lit "Unknown"
               end /\
     lyrics d =
       (if truthy (chosen_containers page)
        then Some (strip (join (nl ++ nl) (chosen_containers page)))
        else None)).
Proof.
  unfold scrapTheSong.search_genius_lyrics.
  destruct (requests_get_links _) as [hrefs|e] eqn:EL;
    [|destruct (is_request_exception e); discriminate].
  destruct (scrapTheSong.first_lyrics_link hrefs) as [u|] eqn:EF;
    [|discriminate].
  destruct (truthy u) eqn:Tu; cbn [negb]; [|discriminate].
  destruct (requests_get_page u) as [page|e] eqn:EP;
    [|destruct (is_request_exception e); discriminate].
  fold (chosen_containers page).
  destruct (first_lyrics_link_spec hrefs u EF) as [before [after [-> [F L]]]].
  unfold scrapTheSong.is_lyrics_link in L; apply andb_prop in L.
  destruct L as [L1 L2].
  destruct (truthy (chosen_containers page)) eqn:TC; cbn [negb];
    intros [= <-]; cbn [url title lyrics];
    (split; [apply startswith_spec, L1|]);
    (split; [apply endswith_spec, L2|]);
    (split; [exists before, after; split; [reflexivity|exact F]|]);
    exists page; rewrite TC; repeat split; assumption || reflexivity.
Qed.

End SearchOutcomes.

Lemma gui_search_document_witness :
  let hit := {| result_url := lit "https://genius.com/x-lyrics";
                result_title := lit " X "; result_full_title := lit "X by Y";
                primary_artist_name := lit "Y" |} in
  let page := {| title_tag := None; by_attribute := [];
                 by_class := [lit "la"; lit "la "] |} in
  let d := {| url := lit "https://genius.com/x-lyrics";
              title := lit "X by Y";
              lyrics := Some (lit "la" ++ nl ++ nl ++ lit "la") |} in
  url d <> [] /\ Forall (fun c => (c < 128)%N) (title d).
Proof.
  intros hit page d.
  destruct (gui_search_document (fun _ => false)
              (fun _ => Returned [{| section_type := lit "song";
                                     section_hits := [hit] |}])
              (fun _ => Returned page) (lit "x y") d eq_refl)
    as [U [A _]].
  split; [exact U|exact A].
Defined.

Lemma request_failures_contained_witness :
  GUI_BASED.search_genius_lyrics (fun _ => true)
    (fun _ => Raised (Exception (lit "ConnectionError")))
    (fun _ => Raised (Exception (lit "ConnectionError"))) (lit "x")
  = Returned None.
Proof.
  apply (proj2 (request_failures_contained (fun _ => true)
                  (fun _ => Raised (Exception (lit "ConnectionError")))
                  (fun _ => Raised (Exception (lit "ConnectionError")))
                  (fun _ => Raised (Exception (lit "ConnectionError")))
                  (fun q => q) (lit "x"))
           (Exception (lit "ConnectionError")) eq_refl);
    reflexivity.
Defined.

Lemma page_search_document_witness :
  let page := {| title_tag := None; by_attribute := [lit "la"];
                 by_class := [] |} in
  let d := {| url := lit "https://genius.com/x-lyrics";
              title := lit "Unknown"; lyrics := Some (lit "la") |} in
  exists slug, url d = lit "https://genius.com/" ++ slug.
Proof.
  intros page d.
  exact (proj1 (page_search_document (fun _ => false)
                  (fun _ => Returned [lit "https://genius.com/about";
                                      lit "https://genius.com/x-lyrics"])
                  (fun _ => Returned page) (fun q => q)
                  (lit "x") d eq_refl)).
Defined.

(** ** The drivers *)

Section Drivers.

Variable unicode_isalnum : char -> bool.
Variable os_path_join : str -> str -> str.
Variable search_genius_lyrics : str -> outcome (option LyricsDocument).
Variable create_lyrics_presentation :
  str -> list lyrics_section -> str -> outcome unit.

Local Abbreviation process_single_song :=
  (GUI_BASED.process_single_song unicode_isalnum os_path_join
     search_genius_lyrics create_lyrics_presentation).

Local Abbreviation output_file_of :=
  (fun output_folder song_query : str =>
     os_path_join output_folder
       (GUI_BASED.safe_filename unicode_isalnum song_query ++ lit ".pptx")).

Local Abbreviation cli_main :=
  (scrappingPpptx.main search_genius_lyrics create_lyrics_presentation).

Ltac run_song :=
  unfold GUI_BASED.process_single_song, try_except, bind, GUI_BASED.log, call,
    ret, GUI_BASED.type_error, GUI_BASED.gui_log, GUI_BASED.no_lyrics.

Ltac step := cbv beta iota zeta; cbn [negb truthy].

(** X16.  With the log of the GUI, a song is reported as done exactly when
    the search returned a document with lyrics that are not empty and the
    builder returned: then the builder was called once, after the search,
    with the title of the document, the sections of the strict parser and
    the file named after the query in the output folder. *)
Theorem song_done (song_query output_folder : str) (tr tr' : list event) :
  process_single_song song_query output_folder GUI_BASED.gui_log tr
    = (Returned true, tr') <->
  exists d l,
    search_genius_lyrics song_query = Returned (Some d) /\
    lyrics d = Some l /\ l <> [] /\
    create_lyrics_presentation (title d)
      (GUI_BASED.parse_lyrics_sections l)
      (output_file_of output_folder song_query) = Returned tt /\
    tr' = tr ++ [Logged MsgRule; Logged (MsgProcessing song_query);
                 Searched song_query; Logged (MsgFound (title d));
                 Logged (MsgParsed
                           (length (GUI_BASED.parse_lyrics_sections l)));
                 Built (title d) (GUI_BASED.parse_lyrics_sections l)
                   (output_file_of output_folder song_query);
                 Logged (MsgSaved (output_file_of output_folder song_query))].
Proof.
  split.
  - run_song.
    destruct (search_genius_lyrics song_query) as [[d|]|e] eqn:ES; step;
      try discriminate.
    destruct (lyrics d) as [l|] eqn:EL; step; [|discriminate].
    destruct l as [|c l]; step; [discriminate|].
    destruct (create_lyrics_presentation _ _ _) as [[]|e] eqn:EB; step;
      [|discriminate].
    intros [= <-]; exists d, (c :: l).
    repeat split; try assumption; try discriminate.
    rewrite <- !app_assoc; reflexivity.
  - intros [d [l [ES [EL [Hl [EB ->]]]]]]; run_song.
    rewrite ES; step; rewrite EL; step.
    destruct l as [|c l]; [congruence|]; step; rewrite EB; step.
    rewrite <- !app_assoc; reflexivity.
Qed.


(** X18.  Lyrics that are the empty text count as missing: the song fails
    like one without lyrics, and no builder is called. *)
Theorem empty_lyrics_fail (song_query output_folder : str)
    (log_callback : message -> outcome unit) (tr : list event)
    (d : LyricsDocument) :
  (forall m, log_callback m = Returned tt) ->
  search_genius_lyrics song_query = Returned (Some d) ->
  lyrics d = Some [] ->
  process_single_song song_query output_folder log_callback tr =
  (Returned false,
   tr ++ [Logged MsgRule; Logged (MsgProcessing song_query);
          Searched song_query; Logged (MsgNoLyrics song_query)]).
Proof.
  intros Hlog ES EL.
  run_song; rewrite ?Hlog, ES; step; rewrite EL; step; rewrite ?Hlog.
  rewrite <- !app_assoc; reflexivity.
Qed.

(** X19.  [main] of the command-line script has no handler: an exception
    of the search leaves [main] and nothing is built; when the search
    returns nothing, or a document whose lyrics are absent or empty, [main]
    returns without building; otherwise it calls the builder once, with the
    sections of the lenient parser, and its outcome is the builder's. *)
Theorem main_outcomes (song_query output_file : str) (tr : list event) :
  (forall e,
     search_genius_lyrics song_query = Raised e ->
     cli_main song_query output_file tr =
     (Raised e, tr ++ [Searched song_query])) /\
  (forall result,
     search_genius_lyrics song_query = Returned result ->
     scrappingPpptx.no_lyrics result = true ->
     cli_main song_query output_file tr =
     (Returned tt, tr ++ [Searched song_query])) /\
  (forall d l,
     search_genius_lyrics song_query = Returned (Some d) ->
     lyrics d = Some l -> l <> [] ->
     cli_main song_query output_file tr =
     (create_lyrics_presentation (title d)
        (scrappingPpptx.parse_lyrics_sections l) output_file,
      tr ++ [Searched song_query;
             Built (title d) (scrappingPpptx.parse_lyrics_sections l)
               output_file])).
Proof.
  unfold scrappingPpptx.main, bind, call, ret; repeat split.
  - intros e ES; rewrite ES; reflexivity.
  - intros result ES HN; rewrite ES; step; rewrite HN; reflexivity.
  - intros d l ES EL Hl; rewrite ES; step.
    unfold scrappingPpptx.no_lyrics; rewrite EL.
    destruct l as [|c l]; [congruence|]; step.
    rewrite <- app_assoc; reflexivity.
Qed.

End Drivers.


Lemma empty_lyrics_fail_witness :
  let d := {| url := lit "u"; title := lit "t"; lyrics := Some [] |} in
  GUI_BASED.process_single_song (fun _ => false) (fun a b => a ++ b)
    (fun _ => Returned (Some d)) (fun _ _ _ => Returned tt)
    (lit "x") (lit "out") GUI_BASED.gui_log []
  = (Returned false,
     [Logged MsgRule; Logged (MsgProcessing (lit "x")); Searched (lit "x");
      Logged (MsgNoLyrics (lit "x"))]).
Proof.
  intros d.
  apply (empty_lyrics_fail (fun _ => false) (fun a b => a ++ b)
           (fun _ => Returned (Some d)) (fun _ _ _ => Returned tt)
           (lit "x") (lit "out") GUI_BASED.gui_log [] d);
    [intros m; reflexivity|reflexivity|reflexivity].
Defined.

Lemma main_outcomes_witness :
  scrappingPpptx.main (fun _ => Raised (Exception (lit "KeyError")))
    (fun _ _ _ => Returned tt) (lit "x") (lit "x.pptx") []
  = (Raised (Exception (lit "KeyError")), [Searched (lit "x")]).
Proof.
  apply (proj1 (main_outcomes (fun _ => Raised (Exception (lit "KeyError")))
                  (fun _ _ _ => Returned tt) (lit "x") (lit "x.pptx") [])).
  reflexivity.
Defined.

(** ** From the lyrics to the slides, and the batch *)

Section Pipeline.

Lemma lstrip_blank (w : str) : blank w = true -> lstrip w = [].
Proof.
  induction w as [|c w IH]; [reflexivity|]; simpl.
  intros H; apply andb_prop in H; destruct H as [Hc Hw].
  rewrite Hc; apply IH, Hw.
Qed.

Lemma strip_blank (w : str) : blank w = true -> strip w = [].
Proof. intros H; unfold strip; rewrite (lstrip_blank w H); reflexivity. Qed.

Lemma blank_app (a b : str) :
  blank a = true -> blank b = true -> blank (a ++ b) = true.
Proof. unfold blank; rewrite forallb_app; intros -> ->; reflexivity. Qed.

Lemma blank_join (sep : str) (l : list str) :
  blank sep = true -> Forall (fun w => blank w = true) l ->
  blank (join sep l) = true.
Proof.
  intros Hs; induction l as [|w l IH]; intros H; [reflexivity|].
  apply Forall_cons_iff in H; destruct H as [Hw Hl]; cbn [join].
  destruct l as [|w' l']; [exact Hw|].
  apply blank_app; [exact Hw|apply blank_app; [exact Hs|apply IH, Hl]].
Qed.

(** X20.  The slides made of a lyrics text: one per section of the parser
    after the title slide; the lyrics boxes hold, in order, the trimmed text
    spans that are not blank (those after a marker in the GUI script, all of
    them in the command-line script), so no slide is blank. *)
Theorem slides_of_lyrics (song_title lyrics_text : str) :
  let gui := GUI_BASED.create_lyrics_presentation song_title
               (GUI_BASED.parse_lyrics_sections lyrics_text) in
  let cli := scrappingPpptx.create_lyrics_presentation song_title
               (scrappingPpptx.parse_lyrics_sections lyrics_text) in
  (length (slides gui) =
     S (length (GUI_BASED.parse_lyrics_sections lyrics_text)) /\
   map box_text (body_boxes gui) =
     filter truthy
       (map strip (body_spans false (tl (re_split lyrics_text)))) /\
   Forall (fun b => box_text b <> []) (body_boxes gui)) /\
  (length (slides cli) =
     S (length (scrappingPpptx.parse_lyrics_sections lyrics_text)) /\
   map box_text (body_boxes cli) =
     filter truthy (map strip (body_spans true (re_split lyrics_text))) /\
   Forall (fun b => box_text b <> []) (body_boxes cli)).
Proof.
  intros gui cli.
  assert (G : map box_text (body_boxes gui) =
              map snd (GUI_BASED.parse_lyrics_sections lyrics_text)).
  { unfold gui; rewrite gui_body_boxes.
    induction (GUI_BASED.parse_lyrics_sections lyrics_text) as [|[n t] r IH];
      [reflexivity|].
    cbn [flat_map map app]; rewrite map_app, IH; reflexivity. }
  assert (C : map box_text (body_boxes cli) =
              map snd (scrappingPpptx.parse_lyrics_sections lyrics_text)).
  { unfold cli; rewrite cli_body_boxes, map_map.
    apply map_ext; intros [n t].
    unfold scrappingPpptx.section_slide, scrappingPpptx.name_box.
    destruct (truthy n); reflexivity. }
  assert (NE : forall (boxes : list TextBox) (spans : list str),
             map box_text boxes = filter truthy spans ->
             Forall (fun b => box_text b <> []) boxes).
  { intros boxes spans E; apply Forall_forall; intros b Hb.
    assert (Hin : In (box_text b) (filter truthy spans))
      by (rewrite <- E; apply in_map, Hb).
    apply filter_In in Hin; apply truthy_true, Hin. }
  assert (GB : map box_text (body_boxes gui) =
               filter truthy
                 (map strip (body_spans false (tl (re_split lyrics_text)))))
    by (rewrite G, strict_parse_eq; apply strict_bodies).
  assert (CB : map box_text (body_boxes cli) =
               filter truthy
                 (map strip (body_spans true (re_split lyrics_text))))
    by (rewrite C; exact (lenient_bodies (re_split lyrics_text) None 0)).
  split;
    (split;
     [unfold gui, cli, GUI_BASED.create_lyrics_presentation,
        scrappingPpptx.create_lyrics_presentation;
      cbn [slides length]; rewrite length_map; reflexivity|]).
  - split; [exact GB|exact (NE _ _ GB)].
  - split; [exact CB|exact (NE _ _ CB)].
Qed.

Variable unicode_isalnum : char -> bool.
Variable os_path_join : str -> str -> str.
Variable is_request_exception : exn -> bool.
Variable requests_get_sections : str -> outcome (list ResultSection).
Variable requests_get_page : str -> outcome LyricsPage.
Variable create_lyrics_presentation :
  str -> list lyrics_section -> str -> outcome unit.

(** X21.  When the page of the chosen hit has no container of lyrics, or
    only blank ones, the search of the GUI script returns a document
    without usable lyrics and the song fails, without a call of the
    builder. *)
Theorem blank_page_fails (song_query output_folder : str)
    (log_callback : message -> outcome unit) (tr : list event)
    (sections : list ResultSection) (lyrics_url song_title : str)
    (page : LyricsPage) :
  (forall m, log_callback m = Returned tt) ->
  requests_get_sections (GUI_BASED.search_url song_query) = Returned sections ->
  GUI_BASED.first_song sections None = Some (lyrics_url, song_title) ->
  lyrics_url <> [] ->
  requests_get_page lyrics_url = Returned page ->
  Forall (fun w => blank w = true) (chosen_containers page) ->
  GUI_BASED.process_single_song unicode_isalnum os_path_join
    (GUI_BASED.search_genius_lyrics is_request_exception
       requests_get_sections requests_get_page)
    create_lyrics_presentation song_query output_folder log_callback tr =
  (Returned false,
   tr ++ [Logged MsgRule; Logged (MsgProcessing song_query);
          Searched song_query; Logged (MsgNoLyrics song_query)]).
Proof.
  intros Hlog ES EF Hu EP HB.
  assert (E : exists d,
            GUI_BASED.search_genius_lyrics is_request_exception
              requests_get_sections requests_get_page song_query
            = Returned (Some d) /\ GUI_BASED.no_lyrics (Some d) = true).
  { unfold GUI_BASED.search_genius_lyrics; rewrite ES, EF.
    apply truthy_true in Hu; rewrite Hu; cbn [negb]; rewrite EP.
    fold (chosen_containers page).
    destruct (truthy (chosen_containers page)); cbn [negb];
      eexists; (split; [reflexivity|]); cbn; [|reflexivity].
    rewrite strip_blank; [reflexivity|].
    apply blank_join; [reflexivity|exact HB]. }
  destruct E as [d [E N]].
  unfold GUI_BASED.process_single_song, try_except, bind, GUI_BASED.log, call,
    ret.
  rewrite ?Hlog, E; cbv beta iota zeta; rewrite N; cbv beta iota zeta.
  rewrite ?Hlog; rewrite <- !app_assoc; reflexivity.
Qed.

End Pipeline.

Section BatchRun.

Variable unicode_isalnum : char -> bool.
Variable os_path_join : str -> str -> str.
Variable search_genius_lyrics : str -> outcome (option LyricsDocument).
Variable create_lyrics_presentation :
  str -> list lyrics_section -> str -> outcome unit.
Variable os_path_exists : str -> bool.
Variable os_makedirs : str -> outcome unit.
Variable os_path_abspath : str -> str.

Local Abbreviation process_songs :=
  (GUI_BASED.process_songs unicode_isalnum os_path_join search_genius_lyrics
     create_lyrics_presentation os_path_exists os_makedirs os_path_abspath).

Lemma process_loop_runs (songs : list str) :
  forall output_folder success_count fail_count tr,
  exists success_count' fail_count' tr',
    GUI_BASED.process_loop unicode_isalnum os_path_join search_genius_lyrics
      create_lyrics_presentation songs output_folder success_count fail_count
      tr
    = (Returned (success_count', fail_count'), tr ++ tr') /\
    success_count' + fail_count' = success_count + fail_count + length songs
    /\ searches tr' = songs.
Proof.
  induction songs as [|q rest IH]; intros folder sc fc tr.
  - exists sc, fc, []; cbn; rewrite app_nil_r; repeat split; lia.
  - destruct (process_single_song_returns unicode_isalnum os_path_join
                search_genius_lyrics create_lyrics_presentation q folder tr)
      as [ok [tr1 [E1 S1]]].
    cbn [GUI_BASED.process_loop]; unfold bind at 1; rewrite E1.
    destruct ok.
    + destruct (IH folder (S sc) fc (tr ++ tr1))
        as [sc' [fc' [tr2 [E2 [C2 S2]]]]].
      exists sc', fc', (tr1 ++ tr2); rewrite E2, app_assoc.
      repeat split; [cbn [length]; lia|].
      rewrite searches_app, S1, S2; reflexivity.
    + destruct (IH folder sc (S fc) (tr ++ tr1))
        as [sc' [fc' [tr2 [E2 [C2 S2]]]]].
      exists sc', fc', (tr1 ++ tr2); rewrite E2, app_assoc.
      repeat split; [cbn [length]; lia|].
      rewrite searches_app, S1, S2; reflexivity.
Qed.

Lemma batch_searches_app (a b : list batch_event) :
  batch_searches (a ++ b) = batch_searches a ++ batch_searches b.
Proof. unfold batch_searches; apply flat_map_app. Qed.

Lemma batch_searches_songs (events : list event) :
  batch_searches (map SongEvent events) = searches events.
Proof.
  induction events as [|e events IH]; [reflexivity|].
  cbn [map]; change (SongEvent e :: map SongEvent events)
    with ([SongEvent e] ++ map SongEvent events).
  rewrite batch_searches_app, IH; destruct e; reflexivity.
Qed.


End BatchRun.


Lemma song_done_witness :
  let d := {| url := lit "u"; title := lit "T";
              lyrics := Some (lit "[A]x") |} in
  GUI_BASED.process_single_song (fun _ => false) (fun a b => a ++ b)
    (fun _ => Returned (Some d)) (fun _ _ _ => Returned tt)
    (lit "x") (lit "out/") GUI_BASED.gui_log []
  = (Returned true,
     [Logged MsgRule; Logged (MsgProcessing (lit "x")); Searched (lit "x");
      Logged (MsgFound (lit "T")); Logged (MsgParsed 1);
      Built (lit "T") [(lit "A", lit "x")] (lit "out/x.pptx");
      Logged (MsgSaved (lit "out/x.pptx"))]).
Proof.
  intros d.
  apply (proj2 (song_done (fun _ => false) (fun a b => a ++ b)
                  (fun _ => Returned (Some d)) (fun _ _ _ => Returned tt)
                  (lit "x") (lit "out/") [] _)).
  exists d, (lit "[A]x"); repeat split; discriminate.
Defined.

Lemma blank_page_fails_witness :
  let hit := {| result_url := lit "https://genius.com/x-lyrics";
                result_title := lit "X"; result_full_title := lit "X by Y";
                primary_artist_name := lit "Y" |} in
  let page := {| title_tag := None; by_attribute := [lit " "; nl];
                 by_class := [lit "la"] |} in
  GUI_BASED.process_single_song (fun _ => false) (fun a b => a ++ b)
    (GUI_BASED.search_genius_lyrics (fun _ => false)
       (fun _ => Returned [{| section_type := lit "song";
                              section_hits := [hit] |}])
       (fun _ => Returned page))
    (fun _ _ _ => Returned tt) (lit "x") (lit "out") GUI_BASED.gui_log []
  = (Returned false,
     [Logged MsgRule; Logged (MsgProcessing (lit "x")); Searched (lit "x");
      Logged (MsgNoLyrics (lit "x"))]).
Proof.
  intros hit page.
  apply (blank_page_fails (fun _ => false) (fun a b => a ++ b)
           (fun _ => false)
           (fun _ => Returned [{| section_type := lit "song";
                                  section_hits := [hit] |}])
           (fun _ => Returned page) (fun _ _ _ => Returned tt)
           (lit "x") (lit "out") GUI_BASED.gui_log []
           [{| section_type := lit "song"; section_hits := [hit] |}]
           (lit "https://genius.com/x-lyrics") (lit "X by Y") page).
  - intros m; reflexivity.
  - reflexivity.
  - reflexivity.
  - discriminate.
  - reflexivity.
  - repeat constructor.
Defined.

Section MoreOutcomes.

Variable is_request_exception : exn -> bool.
Variable requests_get_sections : str -> outcome (list ResultSection).
Variable requests_get_page : str -> outcome LyricsPage.
Variable unicode_isalnum : char -> bool.

Lemma cli_first_song_origin (sections : list ResultSection) :
  forall found u t,
    scrappingPpptx.first_song sections found = Some (u, t) ->
    found = Some (u, t) \/
    exists section hit hits,
      In section sections /\
      str_eqb (section_type section) (lit "song") = true /\
      section_hits section = hit :: hits /\
      u = result_url hit /\ t = result_full_title hit.
Proof.
  induction sections as [|s rest IH]; intros found u t E; [left; exact E|].
  cbn [scrappingPpptx.first_song] in E.
  assert (K : forall found',
            scrappingPpptx.first_song rest found' = Some (u, t) ->
            found' = Some (u, t) \/
            exists section hit hits,
              In section (s :: rest) /\
              str_eqb (section_type section) (lit "song") = true /\
              section_hits section = hit :: hits /\
              u = result_url hit /\ t = result_full_title hit).
  { intros found' E'; destruct (IH _ _ _ E') as [H|[x [h [hs [Hin H]]]]];
      [left; exact H|].
    right; exists x, h, hs; split; [right; exact Hin|exact H]. }
  destruct (str_eqb (section_type s) (lit "song")) eqn:Hs; [|apply K, E].
  destruct (section_hits s) as [|hit hits] eqn:Hh.
  - destruct found as [[u0 t0]|]; [|apply K, E].
    destruct (truthy u0); [left; exact E|apply K, E].
  - assert (Here : Some (result_url hit, result_full_title hit) = Some (u, t)
                   -> exists section hit0 hits0,
                     In section (s :: rest) /\
                     str_eqb (section_type section) (lit "song") = true /\
                     section_hits section = hit0 :: hits0 /\
                     u = result_url hit0 /\ t = result_full_title hit0).
    { intros [= <- <-]; exists s, hit, hits.
      repeat split; [left; reflexivity|exact Hs|exact Hh]. }
    destruct (truthy (result_url hit)); [right; apply Here, E|].
    destruct (K _ E) as [H|H]; right; [apply Here, H|exact H].
Qed.

(** X23.  A document returned by the search of the command-line script has
    a URL that is not empty, taken from the first hit of a section of type
    song, and as title the full title of that hit as the response gives it,
    not cleaned; its lyrics are absent exactly when neither selector finds a
    container, and otherwise trimmed. *)
Theorem cli_search_document (song_query : str) (d : LyricsDocument) :
  scrappingPpptx.search_genius_lyrics is_request_exception
    requests_get_sections requests_get_page song_query = Returned (Some d) ->
  url d <> [] /\
  (exists sections section hit hits,
     requests_get_sections (scrappingPpptx.search_url song_query)
       = Returned sections /\
     In section sections /\
     str_eqb (section_type section) (lit "song") = true /\
     section_hits section = hit :: hits /\
     url d = result_url hit /\ title d = result_full_title hit) /\
  (exists page,
     requests_get_page (url d) = Returned page /\
     lyrics d =
       (if truthy (chosen_containers page)
        then Some (strip (join (nl ++ nl) (chosen_containers page)))
        else None)) /\
  (forall l, lyrics d = Some l -> strip l = l).
Proof.
  unfold scrappingPpptx.search_genius_lyrics.
  destruct (requests_get_sections (scrappingPpptx.search_url song_query))
    as [sections|e] eqn:ES;
    [|destruct (is_request_exception e); discriminate].
  destruct (scrappingPpptx.first_song sections None) as [[u t]|] eqn:EF;
    [|discriminate].
  destruct (truthy u) eqn:Tu; cbn [negb]; [|discriminate].
  destruct (requests_get_page u) as [page|e] eqn:EP;
    [|destruct (is_request_exception e); discriminate].
  fold (chosen_containers page).
  destruct (cli_first_song_origin sections None u t EF)
    as [H|[section [hit [hits [Hin [Hs [Hh [-> ->]]]]]]]]; [discriminate|].
  destruct (truthy (chosen_containers page)) eqn:TC; cbn [negb];
    intros [= <-]; cbn [url title lyrics].
  - split; [apply truthy_true, Tu|].
    split; [exists sections, section, hit, hits; repeat split; assumption|].
    split; [exists page; split; [exact EP|rewrite TC; reflexivity]|].
    intros l [= <-]; apply strip_idempotent.
  - split; [apply truthy_true, Tu|].
    split; [exists sections, section, hit, hits; repeat split; assumption|].
    split; [exists page; split; [exact EP|rewrite TC; reflexivity]|].
    intros l; discriminate.
Qed.

Lemma replace_char_tight (s : str) :
  tight_head s = true -> tight_head (replace_char space underscore s) = true.
Proof.
  destruct s as [|c r]; [reflexivity|]; simpl.
  destruct (c =? space)%N eqn:E; [reflexivity|trivial].
Qed.

Lemma replace_char_rev (a b : char) (s : str) :
  rev (replace_char a b s) = replace_char a b (rev s).
Proof. unfold replace_char; symmetry; apply map_rev. Qed.

Lemma replace_char_absent (a b : char) (s : str) :
  ~ In a s -> replace_char a b s = s.
Proof.
  unfold replace_char; induction s as [|c s IH]; intros H; [reflexivity|].
  simpl; destruct (c =? a)%N eqn:E.
  - apply N.eqb_eq in E; exfalso; apply H; left; exact E.
  - rewrite IH; [reflexivity|intros Hs; apply H; right; exact Hs].
Qed.

(** X24.  Sanitising a file name again changes nothing; a query none of
    whose characters is kept, or only whitespace, gives the empty name. *)
Theorem safe_filename_idempotent (song_query : str) :
  GUI_BASED.safe_filename unicode_isalnum
    (GUI_BASED.safe_filename unicode_isalnum song_query)
  = GUI_BASED.safe_filename unicode_isalnum song_query /\
  (Forall (fun c => GUI_BASED.keeps unicode_isalnum c = false
                    \/ isspace c = true) song_query ->
   GUI_BASED.safe_filename unicode_isalnum song_query = []).
Proof.
  split.
  - unfold GUI_BASED.safe_filename at 1.
    set (f := GUI_BASED.safe_filename unicode_isalnum song_query).
    assert (Hsp : ~ In space f).
    { unfold f, GUI_BASED.safe_filename; intros Hc.
      apply replace_char_in in Hc.
      destruct Hc as [[E _]|[Hne _]]; [discriminate E|apply Hne; reflexivity]. }
    assert (Hk : forall c, In c f -> GUI_BASED.keeps unicode_isalnum c = true).
    { unfold f, GUI_BASED.safe_filename; intros c Hc.
      apply replace_char_in in Hc; destruct Hc as [[-> _]|[_ Hin]].
      - unfold GUI_BASED.keeps; rewrite N.eqb_refl, !orb_true_r; reflexivity.
      - apply strip_incl, filter_In in Hin; apply Hin. }
    destruct (strip_tight_ends
                (filter (GUI_BASED.keeps unicode_isalnum) song_query))
      as [T1 T2].
    rewrite (filter_all _ f Hk).
    assert (S : strip f = f).
    { unfold strip; rewrite lstrip_fixed.
      - apply rstrip_fixed; unfold f, GUI_BASED.safe_filename.
        rewrite replace_char_rev; apply replace_char_tight, T2.
      - unfold f, GUI_BASED.safe_filename; apply replace_char_tight, T1. }
    rewrite S; apply replace_char_absent, Hsp.
  - intros H; unfold GUI_BASED.safe_filename.
    rewrite strip_blank; [reflexivity|].
    unfold blank; apply forallb_forall; intros c Hc.
    apply filter_In in Hc; destruct Hc as [Hin Hk].
    rewrite Forall_forall in H; destruct (H c Hin) as [Hf|Hs];
      [congruence|exact Hs].
Qed.

End MoreOutcomes.

Lemma cli_search_document_witness :
  let hit := {| result_url := lit "https://genius.com/x-lyrics";
                result_title := lit "X"; result_full_title := lit "X by Y";
                primary_artist_name := lit "Y" |} in
  let page := {| title_tag := None; by_attribute := [lit "la "];
                 by_class := [] |} in
  let d := {| url := lit "https://genius.com/x-lyrics";
              title := lit "X by Y"; lyrics := Some (lit "la") |} in
  url d <> [].
Proof.
  intros hit page d.
  exact (proj1 (cli_search_document (fun _ => false)
                  (fun _ => Returned [{| section_type := lit "song";
                                         section_hits := [hit] |}])
                  (fun _ => Returned page) (lit "x y") d eq_refl)).
Defined.

Lemma safe_filename_idempotent_witness :
  GUI_BASED.safe_filename (fun _ => false) (lit " !?! ") = [].
Proof.
  apply (proj2 (safe_filename_idempotent (fun _ => false) (lit " !?! "))).
  repeat (apply Forall_cons; [first [left; reflexivity|right; reflexivity]|]).
  apply Forall_nil.
Defined.
